(** * strahl: the BVH-to-texture encoder and the frame driver of [src/main.ts]

    A shallow embedding of the node accessors, of [bvhToTextures] and of the
    [render] loop, followed by the properties the specification states
    about them. *)

From Stdlib Require Import ZArith QArith Qround Lia Strings.String Strings.Byte Bool.
From Stdlib Require Import Floats.SpecFloat.
From stdpp Require Import base list.

Local Open Scope nat_scope.

(** ** JavaScript values used by the encoder *)

Module JS.

(** The numbers the program computes with are rationals of small size
    (byte lengths, node indices, pixel counts and their quotients by small
    constants), for which binary64 arithmetic is exact or, for a quotient
    that is only rounded up to an integer afterwards, as good as exact;
    [NaN] arises only from [undefined] operands. The one irrational
    operation is [Math.sqrt], whose result is always turned into an integer
    at once; it is kept symbolic ([surd] below), and its roundings are
    compared with their binary64 evaluation in [binary64_dimensions_agree]
    and [binary64_dispatch_agree]. *)
Inductive number : Type :=
| NaN
| Num (q : Q).

(** An element read from an integer typed array: [None] is [undefined]
    (index out of range). *)
Definition ToNumber (v : option Z) : number :=
  match v with
  | None => NaN
  | Some z => Num (inject_Z z)
  end.

Definition mul (a b : number) : number :=
  match a, b with
  | Num x, Num y => Num (x * y)
  | _, _ => NaN
  end.

(** Division; every divisor in the program is a non-zero constant. *)
Definition div (a b : number) : number :=
  match a, b with
  | Num x, Num y => Num (x / y)
  | _, _ => NaN
  end.

Definition of_nat (n : nat) : number := Num (inject_Z (Z.of_nat n)).

(** Rounding toward zero, the first step of [ToUint32] and [ToInt32]. *)
Definition truncate (q : Q) : Z :=
  if Qle_bool 0 q then Qfloor q else Qceiling q.

Definition ToUint32 (n : number) : Z :=
  match n with
  | NaN => 0
  | Num q => truncate q mod 2 ^ 32
  end%Z.

Definition ToInt32 (n : number) : Z :=
  let u := ToUint32 n in
  (if 2 ^ 31 <=? u then u - 2 ^ 32 else u)%Z.

(** The operator [|]: both operands through [ToInt32], the result a
    signed 32-bit integer ([Z.lor] is two's complement on negatives). *)
Definition bitor (a b : number) : number :=
  Num (inject_Z (Z.lor (ToInt32 a) (ToInt32 b))).

(** [v === k] for an element read from an integer typed array. *)
Definition strict_eq (v : option Z) (k : Z) : bool :=
  match v with
  | None => false
  | Some z => (z =? k)%Z
  end.

(** [Math.sqrt] of a non-negative rational, kept symbolic: the value
    denoted is the real square root of [radicand]. *)
Record surd : Type := Sqrt { radicand : Q }.

Definition Math_sqrt (x : Q) : surd := Sqrt x.

(** [Math.ceil] of a square root: the least integer [k >= 0] with
    [radicand <= k * k]. *)
Definition Math_ceil (s : surd) : Z := Z.sqrt_up (Qceiling (radicand s)).

(** [Math.ceil] of a rational. *)
Definition Math_ceilQ (x : Q) : Z := Qceiling x.

(** Errors thrown by the code. *)
Inductive error : Type :=
| Error (message : string)
| RangeError.

Inductive result (A : Type) : Type :=
| Ok (a : A)
| Throw (e : error).
Arguments Ok {A} a.
Arguments Throw {A} e.

Definition bind {A B} (r : result A) (k : A -> result B) : result B :=
  match r with
  | Ok a => k a
  | Throw e => Throw e
  end.

End JS.

Notation "x <- r ;; k" := (JS.bind r (fun x => k))
  (at level 100, r at next level, right associativity).

(** ** Array buffers and their typed views *)

Definition ArrayBuffer : Type := list byte.

Definition byteLength (buf : ArrayBuffer) : nat := length buf.

(** Typed arrays use the byte order of the platform. *)
Inductive endianness : Type := LittleEndian | BigEndian.

Definition byte_val (b : byte) : Z := Z.of_N (Byte.to_N b).

Definition word16 (e : endianness) (b0 b1 : byte) : Z :=
  match e with
  | LittleEndian => byte_val b0 + 2 ^ 8 * byte_val b1
  | BigEndian => byte_val b1 + 2 ^ 8 * byte_val b0
  end%Z.

Definition word32 (e : endianness) (b0 b1 b2 b3 : byte) : Z :=
  match e with
  | LittleEndian => word16 e b0 b1 + 2 ^ 16 * word16 e b2 b3
  | BigEndian => word16 e b2 b3 + 2 ^ 16 * word16 e b0 b1
  end%Z.

(** A binary32 element as a Number sees it: its bit pattern, with all NaN
    patterns identified (a Number has one NaN). *)
Inductive float32 : Type :=
| F32NaN
| F32 (bits : Z).

Definition is_nan_bits (w : Z) : bool :=
  ((w / 2 ^ 23) mod 2 ^ 8 =? 255)%Z && negb (w mod 2 ^ 23 =? 0)%Z.

Definition float32_of_bits (w : Z) : float32 :=
  if is_nan_bits w then F32NaN else F32 w.

(** Positive zero, the initial value of every element of a new
    [Float32Array]. *)
Definition f32_zero : float32 := F32 0.

Fixpoint words16 (e : endianness) (bs : list byte) : list Z :=
  match bs with
  | b0 :: b1 :: rest => word16 e b0 b1 :: words16 e rest
  | _ => []
  end.

Fixpoint words32 (e : endianness) (bs : list byte) : list Z :=
  match bs with
  | b0 :: b1 :: b2 :: b3 :: rest => word32 e b0 b1 b2 b3 :: words32 e rest
  | _ => []
  end.

(** [new Uint16Array(buffer)], [new Uint32Array(buffer)] and
    [new Float32Array(buffer)]: a view of the whole buffer; a byte length
    that is not a multiple of the element size is a [RangeError]. The buffer
    is never written, so a view is the list of its elements. *)
Definition new_Uint16Array (e : endianness) (buf : ArrayBuffer)
  : JS.result (list Z) :=
  if byteLength buf mod 2 =? 0 then JS.Ok (words16 e buf)
  else JS.Throw JS.RangeError.

Definition new_Uint32Array (e : endianness) (buf : ArrayBuffer)
  : JS.result (list Z) :=
  if byteLength buf mod 4 =? 0 then JS.Ok (words32 e buf)
  else JS.Throw JS.RangeError.

Definition new_Float32Array (e : endianness) (buf : ArrayBuffer)
  : JS.result (list float32) :=
  if byteLength buf mod 4 =? 0 then JS.Ok (float32_of_bits <$> words32 e buf)
  else JS.Throw JS.RangeError.

(** [new Float32Array(n)] and [new Uint32Array(n)]: [n] zero elements. *)
Definition Float32Array_alloc (n : Z) : list float32 :=
  replicate (Z.to_nat n) f32_zero.

Definition Uint32Array_alloc (n : Z) : list Z :=
  replicate (Z.to_nat n) 0%Z.

(** [a[k] = v] on a typed array: an index out of range is ignored, the
    value is converted to the element type. A binary32 value read from a
    [Float32Array] is stored back unchanged; [undefined] is stored as NaN. *)
Definition Float32Array_set (a : list float32) (k : nat) (v : option float32)
  : list float32 :=
  <[k := default F32NaN v]> a.

Definition Uint32Array_set (a : list Z) (k : nat) (v : JS.number) : list Z :=
  <[k := JS.ToUint32 v]> a.

(** ** Node accessors *)

Definition BYTES_PER_NODE : nat := 6 * 4 + 4 + 4.

Definition isLeaf (n16 : nat) (uint16Array : list Z) : bool :=
  JS.strict_eq (uint16Array !! (n16 + 15)) 0xffff.

Definition getAtOffset (n32 : nat) (uint32Array : list Z) : option Z :=
  uint32Array !! (n32 + 6).

Definition getCount (n16 : nat) (uint16Array : list Z) : option Z :=
  uint16Array !! (n16 + 14).

Definition getLeftNode (n32 : nat) : nat := n32 + 8.

Definition getRightNode (n32 : nat) (uint32Array : list Z) : option Z :=
  uint32Array !! (n32 + 6).

Definition getSplitAxis (n32 : nat) (uint32Array : list Z) : option Z :=
  uint32Array !! (n32 + 7).

Definition getBoundingDataIndex (n32 : nat) : nat := n32.

(** ** The encoder *)

Record MeshBVHInternal : Type := { _roots : list ArrayBuffer }.

Record Textures : Type := {
  boundsArray : list float32;
  contentsArray : list Z;
  boundsDimension : Z;
  contentsDimension : Z;
}.

(** [for (let i = 0; i < bound; i++) body]: the indices below a
    non-negative rational bound are [0 .. ceil bound - 1]
    (see [iterations_spec]). *)
Definition iterations (bound : Q) : nat := Z.to_nat (Qceiling bound).

Definition for_lt {S : Type} (bound : Q) (body : nat -> S -> S) (s : S) : S :=
  foldl (fun s i => body i s) s (seq 0 (iterations bound)).

(** The body of the loop over the nodes, for node [i]. The quotient
    [(i * BYTES_PER_NODE) / 4] is exact: the stride is a multiple of 4. *)
Definition encodeNode (uint16Array uint32Array : list Z)
    (float32Array : list float32) (i : nat)
    (arrays : list float32 * list Z) : list float32 * list Z :=
  let '(boundsArray, contentsArray) := arrays in
  let nodeIndex32 := (i * BYTES_PER_NODE) / 4 in
  let nodeIndex16 := nodeIndex32 * 2 in
  let boundsIndex := getBoundingDataIndex nodeIndex32 in
  let boundsArray :=
    for_lt 3 (fun b boundsArray =>
      let boundsArray :=
        Float32Array_set boundsArray (8 * i + 0 + b)
          (float32Array !! (boundsIndex + 0 + b)) in
      Float32Array_set boundsArray (8 * i + 4 + b)
        (float32Array !! (boundsIndex + 3 + b))) boundsArray in
  if isLeaf nodeIndex16 uint16Array then
    let count := getCount nodeIndex16 uint16Array in
    let offset := getAtOffset nodeIndex32 uint32Array in
    let mergedLeafCount :=
      JS.bitor (JS.Num (inject_Z 0xffff0000)) (JS.ToNumber count) in
    let contentsArray :=
      Uint32Array_set contentsArray (i * 2 + 0) mergedLeafCount in
    let contentsArray :=
      Uint32Array_set contentsArray (i * 2 + 1) (JS.ToNumber offset) in
    (boundsArray, contentsArray)
  else
    let rightIndex :=
      JS.div
        (JS.mul (JS.Num 4) (JS.ToNumber (getRightNode nodeIndex32 uint32Array)))
        (JS.of_nat BYTES_PER_NODE) in
    let splitAxis := getSplitAxis nodeIndex32 uint32Array in
    let contentsArray :=
      Uint32Array_set contentsArray (i * 2 + 0) (JS.ToNumber splitAxis) in
    let contentsArray :=
      Uint32Array_set contentsArray (i * 2 + 1) rightIndex in
    (boundsArray, contentsArray).

(** [nodeCount = root.byteLength / BYTES_PER_NODE], a rational. *)
Definition nodeCountOf (root : ArrayBuffer) : Q :=
  inject_Z (Z.of_nat (byteLength root)) / inject_Z (Z.of_nat BYTES_PER_NODE).

(** [bvhToTextures]; the match on [roots] is the test
    [roots.length !== 1] followed by [roots[0]]. *)
Definition bvhToTextures (e : endianness) (bvh : MeshBVHInternal)
  : JS.result Textures :=
  let roots := _roots bvh in
  match roots with
  | [root] =>
      uint16Array <- new_Uint16Array e root ;;
      uint32Array <- new_Uint32Array e root ;;
      float32Array <- new_Float32Array e root ;;
      let nodeCount := nodeCountOf root in
      let boundsDimension :=
        (2 * JS.Math_ceil (JS.Math_sqrt (nodeCount / 2)))%Z in
      let boundsArray :=
        Float32Array_alloc (4 * boundsDimension * boundsDimension) in
      let contentsDimension := JS.Math_ceil (JS.Math_sqrt nodeCount) in
      let contentsArray :=
        Uint32Array_alloc (2 * contentsDimension * contentsDimension) in
      let '(boundsArray, contentsArray) :=
        for_lt nodeCount (encodeNode uint16Array uint32Array float32Array)
          (boundsArray, contentsArray) in
      JS.Ok {| boundsArray := boundsArray;
               contentsArray := contentsArray;
               boundsDimension := boundsDimension;
               contentsDimension := contentsDimension |}
  | _ =>
      JS.Throw (JS.Error "MeshBVHUniformStruct: Multi-root BVHs not supported.")
  end.

(** ** The frame driver *)

Definition kTextureWidth : Z := 1024.
Definition imageWidth : Z := kTextureWidth.
Definition imageHeight : Z := imageWidth.
Definition maxWorkgroupDimension : Z := 16.

(** [Math.ceil((imageWidth * imageWidth) / maxWorkgroupDimension)], for a
    positive workgroup dimension. *)
Definition computePassesFor (imageWidth maxWorkgroupDimension : Z) : Z :=
  JS.Math_ceilQ
    (inject_Z (imageWidth * imageWidth) / inject_Z maxWorkgroupDimension).

Definition computePasses : Z :=
  computePassesFor imageWidth maxWorkgroupDimension.

(** An argument of [dispatchWorkgroups] is a [GPUSize32]: the call
    receives the integer part of the Number passed. *)
Definition GPUSize32 (s : JS.surd) : Z := Z.sqrt (Qfloor (JS.radicand s)).

(** The side of the grid dispatched by
    [dispatchWorkgroups(Math.sqrt(computePasses), Math.sqrt(computePasses))]. *)
Definition dispatchSide (imageWidth maxWorkgroupDimension : Z) : Z :=
  GPUSize32
    (JS.Math_sqrt (inject_Z (computePassesFor imageWidth maxWorkgroupDimension))).

Inductive mapState : Type := unmapped | pending | mapped.

Definition mapState_eqb (a b : mapState) : bool :=
  match a, b with
  | unmapped, unmapped | pending, pending | mapped, mapped => true
  | _, _ => false
  end.

(** What one [render] call records and submits. *)
Record CommandBuffer : Type := {
  workgroupCountX : Z;
  workgroupCountY : Z;
  copiesTimestamps : bool;
  vertexCount : nat;
}.

(** The state [render] runs in: the frame counter, the map state of
    [timestampQueryResultBuffer], the callbacks queued by
    [requestAnimationFrame(render)], whether a [render] call is suspended
    at [await mapAsync], the command buffers submitted and the GPU times
    logged (most recent first). *)
Record Driver : Type := {
  frame : nat;
  resultBufferState : mapState;
  requested : nat;
  awaitingMap : bool;
  submitted : list CommandBuffer;
  console : list Z;
}.

(** What the browser does to the program: it runs a queued animation-frame
    callback, or settles the promise of [mapAsync]; a fulfilled map
    exposes the two timestamps. *)
Inductive event : Type :=
| AnimationFrame
| MapFulfilled (t0 t1 : Z)
| MapRejected.

Definition RENDER_TEXTURE_VERTEX_COUNT : nat := 6.

(** The end of [render]: [if (frame < TARGET_FRAMES) { frame++;
    requestAnimationFrame(render); }]. *)
Definition scheduleNext (TARGET_FRAMES : nat) (d : Driver) : Driver :=
  if frame d <? TARGET_FRAMES then
    {| frame := S (frame d);
       resultBufferState := resultBufferState d;
       requested := S (requested d);
       awaitingMap := awaitingMap d;
       submitted := submitted d;
       console := console d |}
  else d.

(** [render] from its first statement to [await mapAsync] (or to its end
    when the result buffer is not unmapped). *)
Definition renderStart (TARGET_FRAMES : nat) (d : Driver) : Driver :=
  let side := dispatchSide imageWidth maxWorkgroupDimension in
  let commandBuffer :=
    {| workgroupCountX := side;
       workgroupCountY := side;
       copiesTimestamps := mapState_eqb (resultBufferState d) unmapped;
       vertexCount := RENDER_TEXTURE_VERTEX_COUNT |} in
  let d :=
    {| frame := frame d;
       resultBufferState := resultBufferState d;
       requested := requested d;
       awaitingMap := awaitingMap d;
       submitted := commandBuffer :: submitted d;
       console := console d |} in
  if mapState_eqb (resultBufferState d) unmapped then
    {| frame := frame d;
       resultBufferState := pending;
       requested := requested d;
       awaitingMap := true;
       submitted := submitted d;
       console := console d |}
  else scheduleNext TARGET_FRAMES d.

(** [render] after a fulfilled [await mapAsync]: read the timestamps, log
    their difference, unmap, then the end of [render]. *)
Definition renderResume (TARGET_FRAMES : nat) (t0 t1 : Z) (d : Driver)
  : Driver :=
  let gpuTime := (t1 - t0)%Z in
  scheduleNext TARGET_FRAMES
    {| frame := frame d;
       resultBufferState := unmapped;
       requested := requested d;
       awaitingMap := false;
       submitted := submitted d;
       console := gpuTime :: console d |}.

(** [render] after a rejected [await mapAsync]: the await throws, nothing
    catches it and the rest of [render] does not run; the buffer is
    unmapped again. *)
Definition renderAbort (d : Driver) : Driver :=
  {| frame := frame d;
     resultBufferState := unmapped;
     requested := requested d;
     awaitingMap := false;
     submitted := submitted d;
     console := console d |}.

(** One event; [None] when the state does not allow it (no callback
    queued, no map outstanding). *)
Definition step (TARGET_FRAMES : nat) (d : Driver) (ev : event)
  : option Driver :=
  match ev with
  | AnimationFrame =>
      match requested d with
      | O => None
      | S n =>
          Some (renderStart TARGET_FRAMES
                  {| frame := frame d;
                     resultBufferState := resultBufferState d;
                     requested := n;
                     awaitingMap := awaitingMap d;
                     submitted := submitted d;
                     console := console d |})
      end
  | MapFulfilled t0 t1 =>
      if awaitingMap d then Some (renderResume TARGET_FRAMES t0 t1 d)
      else None
  | MapRejected =>
      if awaitingMap d then Some (renderAbort d) else None
  end.

Fixpoint exec (TARGET_FRAMES : nat) (d : Driver) (events : list event)
  : option Driver :=
  match events with
  | [] => Some d
  | ev :: rest =>
      match step TARGET_FRAMES d ev with
      | Some d' => exec TARGET_FRAMES d' rest
      | None => None
      end
  end.

(** The state after [run] has set up the pipeline: [frame = 0], the
    result buffer unmapped and the first [requestAnimationFrame(render)]
    issued. *)
Definition initial : Driver :=
  {| frame := 0;
     resultBufferState := unmapped;
     requested := 1;
     awaitingMap := false;
     submitted := [];
     console := [] |}.

Definition TARGET_FRAMES : nat := 0.

(** Number of [render] calls so far: each call submits one command
    buffer. *)
Definition renderCalls (d : Driver) : nat := length (submitted d).

(** No event can happen any more: the loop has stopped. *)
Definition stopped (d : Driver) : Prop :=
  requested d = 0 /\ awaitingMap d = false.

(** The browser's part of a run in which every map is fulfilled: for each
    frame the callback, then the fulfilment. *)
Fixpoint nominal (frames : nat) : list event :=
  match frames with
  | O => []
  | S n => AnimationFrame :: MapFulfilled 0 0 :: nominal n
  end.

Definition rejects (ev : event) : bool :=
  match ev with
  | MapRejected => true
  | _ => false
  end.

(** ** Vocabulary of the specification *)

(** The error the specification calls [UnsupportedStructureError]: the
    [Error] thrown for a root list that is not a single root. *)
Definition UnsupportedStructureError : JS.error :=
  JS.Error "MeshBVHUniformStruct: Multi-root BVHs not supported.".

(** [k = ceil (sqrt x)] for a rational [x >= 0], without square roots:
    [k] is the least non-negative integer whose square is at least [x]. *)
Definition is_ceil_sqrt (x : Q) (k : Z) : Prop :=
  (0 <= k)%Z /\ (x <= inject_Z (k * k))%Q /\
  forall j : Z, (0 <= j)%Z -> (x <= inject_Z (j * j))%Q -> (k <= j)%Z.

(** A buffer that holds [n] whole nodes. *)
Definition holdsNodes (root : ArrayBuffer) (n : nat) : Prop :=
  byteLength root = BYTES_PER_NODE * n.

(** The grid the specification asks for, for an image of [pixels] pixels:
    its side is [ceil(sqrt(pixels / G))], it covers the image, and one row
    and column less would not. *)
Definition coveringSide (pixels G side : Z) : Prop :=
  is_ceil_sqrt (inject_Z pixels / inject_Z G) side /\
  (pixels <= side * side * G)%Z /\
  ((side - 1) * (side - 1) * G < pixels)%Z.

(** An empty buffer yields a minimum texture of one by one, never
    zero-sized dimensions or arrays. *)
Definition emptyBufferMinimumTexture (e : endianness) : Prop :=
  forall root : ArrayBuffer,
    (nodeCountOf root == 0)%Q ->
    exists t : Textures,
      bvhToTextures e {| _roots := [root] |} = JS.Ok t /\
      contentsDimension t = 1%Z /\ (0 < boundsDimension t)%Z /\
      boundsArray t <> [] /\ contentsArray t <> [].

(** The next frame does not wait for the timestamp read: whenever a map
    is outstanding and another frame is due, its callback is queued. *)
Definition nextFrameIndependentOfMap (T : nat) : Prop :=
  forall (events : list event) (d : Driver),
    exec T initial events = Some d ->
    awaitingMap d = true -> frame d < T -> 0 < requested d.

(** A rejected map skips the log and leaves the loop running: whenever
    another frame is due after the rejection, its callback is queued. *)
Definition mapFailureKeepsRendering (T : nat) : Prop :=
  forall (events : list event) (d d' : Driver),
    exec T initial events = Some d ->
    step T d MapRejected = Some d' ->
    console d' = console d /\ (frame d' < T -> 0 < requested d').

(** Every run that has stopped has called [render] exactly [T + 1]
    times. *)
Definition rendersTargetPlusOne (T : nat) : Prop :=
  forall (events : list event) (d : Driver),
    exec T initial events = Some d -> stopped d -> renderCalls d = S T.

(** ** Auxiliary definitions of the proofs *)

(** The loop over the nodes, run for the nodes [0 .. m - 1]. *)
Definition encodeNodes (uint16Array uint32Array : list Z)
    (float32Array : list float32) (m : nat)
    (arrays : list float32 * list Z) : list float32 * list Z :=
  foldl (fun s i => encodeNode uint16Array uint32Array float32Array i s)
    arrays (seq 0 m).

(** The word stored first for a leaf: [0xffff0000 | count] stored in a
    [Uint32Array]. *)
Definition mergedLeafWord (count : option Z) : Z :=
  JS.ToUint32 (JS.bitor (JS.Num (inject_Z 0xffff0000)) (JS.ToNumber count)).

(** The word stored second for an internal node:
    [(4 * right) / BYTES_PER_NODE] stored in a [Uint32Array]. *)
Definition rightIndexWord (right : option Z) : Z :=
  JS.ToUint32
    (JS.div (JS.mul (JS.Num 4) (JS.ToNumber right)) (JS.of_nat BYTES_PER_NODE)).

(** The pair of words the loop stores for node [i]. *)
Definition contentsPair (uint16Array uint32Array : list Z) (i : nat) : Z * Z :=
  if isLeaf (8 * i * 2) uint16Array then
    (mergedLeafWord (getCount (8 * i * 2) uint16Array),
     JS.ToUint32 (JS.ToNumber (getAtOffset (8 * i) uint32Array)))
  else
    (JS.ToUint32 (JS.ToNumber (getSplitAxis (8 * i) uint32Array)),
     rightIndexWord (getRightNode (8 * i) uint32Array)).

(** What holds of the driver between two events: either one callback is
    queued, or one [render] call is suspended at the await, or nothing is
    left to run; [frame] counts the calls completed or abandoned so far. *)
Definition driverInv (T : nat) (d : Driver) : Prop :=
  frame d <= T /\
  ((requested d = 1 /\ awaitingMap d = false /\
    resultBufferState d = unmapped /\ renderCalls d = frame d) \/
   (requested d = 0 /\ awaitingMap d = true /\
    resultBufferState d = pending /\ renderCalls d = S (frame d)) \/
   (requested d = 0 /\ awaitingMap d = false /\
    resultBufferState d = unmapped /\ renderCalls d = S (frame d))).

(** The arrays [bvhToTextures] allocates for [root], before the loop. *)
Definition blankArrays (root : ArrayBuffer) : list float32 * list Z :=
  let boundsDimension :=
    (2 * JS.Math_ceil (JS.Math_sqrt (nodeCountOf root / 2)))%Z in
  let contentsDimension := JS.Math_ceil (JS.Math_sqrt (nodeCountOf root)) in
  (Float32Array_alloc (4 * boundsDimension * boundsDimension),
   Uint32Array_alloc (2 * contentsDimension * contentsDimension)).

(** A command buffer as every frame should record it: the timestamps are
    copied to the result buffer, the grid is 256 by 256 and six vertices
    are drawn. *)
Definition fullFrame (cb : CommandBuffer) : Prop :=
  copiesTimestamps cb = true /\
  workgroupCountX cb = 256%Z /\ workgroupCountY cb = 256%Z /\
  vertexCount cb = 6.

(** An element of a [Uint16Array] or [Uint32Array]. *)
Definition isWord32 (w : Z) : Prop := (0 <= w < 2 ^ 32)%Z.

(** ** Sample inputs *)

Definition byte_of (z : Z) : byte := default x00 (Byte.of_N (Z.to_N z)).

(** The four bytes of a 32-bit word, least significant first. *)
Definition le32 (w : Z) : list byte :=
  [byte_of (w mod 256); byte_of (w / 2 ^ 8 mod 256);
   byte_of (w / 2 ^ 16 mod 256); byte_of (w / 2 ^ 24 mod 256)].

Definition nodeBytes (words : list Z) : list byte := mjoin (le32 <$> words).

(** A root over two leaves, as three-mesh-bvh lays it out on a
    little-endian platform: the root splits on axis 1 and its right child
    starts at 32-bit index 16 (node 2); the leaves hold 2 and 3 triangles
    from offsets 0 and 2. The first six words of a node are the binary32
    patterns of its bounds. *)
Definition sampleRoot : ArrayBuffer :=
  nodeBytes [0xBF800000; 0xBF800000; 0xBF800000;
             0x3F800000; 0x3F800000; 0x3F800000; 16; 1]%Z ++
  nodeBytes [0xBF800000; 0xBF800000; 0xBF800000;
             0; 0x3F800000; 0x3F800000; 0; 0xFFFF0002]%Z ++
  nodeBytes [0; 0xBF800000; 0xBF800000;
             0x3F800000; 0x3F800000; 0x3F800000; 2; 0xFFFF0003]%Z.

(** What the encoder returns for [sampleRoot] on a little-endian
    platform (see [sampleRoot_encoded]). *)
Definition sampleTextures : Textures :=
  {| boundsArray :=
       [F32 0xBF800000; F32 0xBF800000; F32 0xBF800000; F32 0;
        F32 0x3F800000; F32 0x3F800000; F32 0x3F800000; F32 0;
        F32 0xBF800000; F32 0xBF800000; F32 0xBF800000; F32 0;
        F32 0; F32 0x3F800000; F32 0x3F800000; F32 0;
        F32 0; F32 0xBF800000; F32 0xBF800000; F32 0;
        F32 0x3F800000; F32 0x3F800000; F32 0x3F800000; F32 0]
       ++ replicate 40 f32_zero;
     contentsArray := [1; 2; 0xFFFF0002; 0; 0xFFFF0003; 2; 0; 0]%Z;
     boundsDimension := 4;
     contentsDimension := 2 |}.

(** ** Binary64 evaluation of the roundings

    [JS.Math_ceil], [JS.Math_sqrt] and [GPUSize32] compute with exact
    square roots. The same expressions evaluated bit for bit in IEEE 754
    binary64, to compare the two (see [binary64_dimensions_agree] and
    [binary64_dispatch_agree]). *)

Module Binary64.

Definition prec : Z := 53.
Definition emax : Z := 1024.

Definition of_Z (n : Z) : spec_float := binary_normalize prec emax n 0 false.
Definition divide : spec_float -> spec_float -> spec_float := SFdiv prec emax.
Definition sqrt : spec_float -> spec_float := SFsqrt prec emax.

(** The magnitude [m * 2 ^ e] rounded down and up to an integer. *)
Definition magnitudeDown (m : positive) (e : Z) : Z :=
  (if 0 <=? e then Z.pos m * 2 ^ e else Z.pos m / 2 ^ (- e))%Z.

Definition magnitudeUp (m : positive) (e : Z) : Z :=
  (if 0 <=? e then Z.pos m * 2 ^ e else - (- Z.pos m / 2 ^ (- e)))%Z.

(** [Math.ceil] and the integer part, for a finite value. *)
Definition ceil (x : spec_float) : option Z :=
  match x with
  | S754_zero _ => Some 0%Z
  | S754_finite s m e =>
      Some (if s then - magnitudeDown m e else magnitudeUp m e)%Z
  | _ => None
  end.

Definition integerPart (x : spec_float) : option Z :=
  match x with
  | S754_zero _ => Some 0%Z
  | S754_finite s m e =>
      Some (if s then - magnitudeDown m e else magnitudeDown m e)%Z
  | _ => None
  end.

(** [Math.ceil(Math.sqrt(nodeCount))] and
    [Math.ceil(Math.sqrt(nodeCount / 2))] for a buffer of [len] bytes. *)
Definition contentsSide (len : Z) : option Z :=
  ceil (sqrt (divide (of_Z len) (of_Z (Z.of_nat BYTES_PER_NODE)))).

Definition boundsHalfSide (len : Z) : option Z :=
  ceil (sqrt (divide (divide (of_Z len) (of_Z (Z.of_nat BYTES_PER_NODE)))
                (of_Z 2))).

(** The argument of [dispatchWorkgroups] as the call receives it. *)
Definition gridSide (imageWidth maxWorkgroupDimension : Z) : option Z :=
  match
    ceil (divide (of_Z (imageWidth * imageWidth)) (of_Z maxWorkgroupDimension))
  with
  | Some passes => integerPart (sqrt (of_Z passes))
  | None => None
  end.

End Binary64.

(** Do the exact model and binary64 give the same dimensions for a buffer
    of [len] bytes, and the same grid side? *)
Definition dimensionsAgree (len : Z) : bool :=
  match Binary64.contentsSide len, Binary64.boundsHalfSide len with
  | Some side, Some half =>
      (side =? JS.Math_ceil (JS.Math_sqrt
                 (inject_Z len / inject_Z (Z.of_nat BYTES_PER_NODE))))%Z &&
      (half =? JS.Math_ceil (JS.Math_sqrt
                 (inject_Z len / inject_Z (Z.of_nat BYTES_PER_NODE) / 2)))%Z
  | _, _ => false
  end.

Definition dispatchAgrees (imageWidth maxWorkgroupDimension : Z) : bool :=
  match Binary64.gridSide imageWidth maxWorkgroupDimension with
  | Some side => (side =? dispatchSide imageWidth maxWorkgroupDimension)%Z
  | None => false
  end.

(** The byte lengths around which a dimension changes: a node count, or
    half of it, next to the square of [k]. *)
Definition boundaryLengths (k : Z) : list Z :=
  [32 * k * k - 4; 32 * k * k; 32 * k * k + 4;
   64 * k * k - 4; 64 * k * k; 64 * k * k + 4]%Z.

(** ** The buffers handed to the device *)

(** [Float32Array.BYTES_PER_ELEMENT] and [Uint32Array.BYTES_PER_ELEMENT]. *)
Definition BYTES_PER_ELEMENT : nat := 4.

(** [device.createBuffer({ size, mappedAtCreation: true })] followed by
    [getMappedRange()]: a zero-filled range of [size] bytes; a size that is
    not a multiple of 4 is a [RangeError]. *)
Definition createMappedBuffer (size : nat) : JS.result ArrayBuffer :=
  if size mod 4 =? 0 then JS.Ok (replicate size x00)
  else JS.Throw JS.RangeError.

(** [target.set(source)]: the elements of [source], converted to the
    element type, replace the first elements of [target]; a source longer
    than the target is a [RangeError]. *)
Definition Uint32Array_setAll (target : list Z) (source : list JS.number)
  : JS.result (list Z) :=
  if length source <=? length target then
    JS.Ok ((JS.ToUint32 <$> source) ++ drop (length source) target)
  else JS.Throw JS.RangeError.

Definition Float32Array_setAll (target source : list float32)
  : JS.result (list float32) :=
  if length source <=? length target then
    JS.Ok (source ++ drop (length source) target)
  else JS.Throw JS.RangeError.

(** [new Uint32Array(typedArray)]: a copy of an integer typed array, each
    element converted. *)
Definition Uint32Array_from (source : list Z) : list Z :=
  (fun v => JS.ToUint32 (JS.ToNumber (Some v))) <$> source.

(** The index buffer: [meshIndices] widened to 32 bits, then copied into a
    mapped buffer of [BYTES_PER_ELEMENT * indices.length] bytes. The result
    is what the buffer holds at [unmap], as 32-bit words. *)
Definition uploadIndices (e : endianness) (meshIndices : list Z)
  : JS.result (list Z) :=
  let indices := Uint32Array_from meshIndices in
  indicesMapped <- createMappedBuffer (BYTES_PER_ELEMENT * length indices) ;;
  indicesData <- new_Uint32Array e indicesMapped ;;
  Uint32Array_setAll indicesData ((fun v => JS.ToNumber (Some v)) <$> indices).

(** The bounds and contents buffers: [bvhToTextures], then each array
    copied into a mapped buffer of [BYTES_PER_ELEMENT] bytes per element. *)
Definition uploadBVH (e : endianness) (bvh : MeshBVHInternal)
  : JS.result (list float32 * list Z) :=
  t <- bvhToTextures e bvh ;;
  boundsMapped <-
    createMappedBuffer (BYTES_PER_ELEMENT * length (boundsArray t)) ;;
  boundsData <- new_Float32Array e boundsMapped ;;
  boundsData <- Float32Array_setAll boundsData (boundsArray t) ;;
  contentsMapped <-
    createMappedBuffer (BYTES_PER_ELEMENT * length (contentsArray t)) ;;
  contentsData <- new_Uint32Array e contentsMapped ;;
  contentsData <-
    Uint32Array_setAll contentsData
      ((fun v => JS.ToNumber (Some v)) <$> contentsArray t) ;;
  JS.Ok (boundsData, contentsData).

(** A group of the consolidated geometry: [start] and [count] are
    integers, [materialIndex] may be [undefined]. *)
Module Group.

Record t : Type := {
  start : Z;
  count : Z;
  materialIndex : option Z;
}.

End Group.

Definition OBJECT_DEFINITION_SIZE_PER_ENTRY : nat := BYTES_PER_ELEMENT * 3.

(** [groups.map((g) => [g.start, g.count, g.materialIndex]).flat(1)]. *)
Definition flattenGroups (groups : list Group.t) : list JS.number :=
  mjoin ((fun g => [JS.ToNumber (Some (Group.start g));
                    JS.ToNumber (Some (Group.count g));
                    JS.ToNumber (Group.materialIndex g)]) <$> groups).

(** The object definitions buffer, as 32-bit words at [unmap]. *)
Definition objectDefinitions (e : endianness) (groups : list Group.t)
  : JS.result (list Z) :=
  objectDefinitionsMapped <-
    createMappedBuffer (OBJECT_DEFINITION_SIZE_PER_ENTRY * length groups) ;;
  objectDefinitionsData <- new_Uint32Array e objectDefinitionsMapped ;;
  Uint32Array_setAll objectDefinitionsData (flattenGroups groups).

(** The GPU times a sequence of events makes [render] log, oldest first:
    one for each fulfilled map. *)
Fixpoint gpuTimes (events : list event) : list Z :=
  match events with
  | [] => []
  | MapFulfilled t0 t1 :: rest => (t1 - t0)%Z :: gpuTimes rest
  | _ :: rest => gpuTimes rest
  end.

(** A single internal node whose split-axis word is [0x12340001], on a
    little-endian platform. *)
Definition wideAxisRoot : ArrayBuffer :=
  nodeBytes [0; 0; 0; 0; 0; 0; 8; 0x12340001]%Z.

(** Two whole nodes followed by the first three words of a third. *)
Definition truncatedRoot : ArrayBuffer :=
  nodeBytes [0xBF800000; 0xBF800000; 0xBF800000;
             0x3F800000; 0x3F800000; 0x3F800000; 8; 2]%Z ++
  nodeBytes [0xBF800000; 0xBF800000; 0xBF800000;
             0x3F800000; 0x3F800000; 0x3F800000; 0; 0xFFFF0001]%Z ++
  nodeBytes [0x3F800000; 0x3F800000; 0x3F800000]%Z.

(** One whole node followed by the first five words of a second: its
    three min components and the first two max components. *)
Definition partialMaxRoot : ArrayBuffer :=
  nodeBytes [0xBF800000; 0xBF800000; 0xBF800000;
             0x3F800000; 0x3F800000; 0x3F800000; 0; 0xFFFF0001]%Z ++
  nodeBytes [0xBF800000; 0xC0000000; 0xC0400000;
             0x3F800000; 0x40000000]%Z.

(** ** Arithmetic of the JavaScript model *)

Lemma iterations_spec (q : Q) (i : nat) :
  i < iterations q <-> (inject_Z (Z.of_nat i) < q)%Q.
Proof.
  unfold iterations. split.
  - intros Hi.
    assert (Hz : (Z.of_nat i <= Qceiling q - 1)%Z) by lia.
    apply Qle_lt_trans with (inject_Z (Qceiling q - 1)).
    + now rewrite <- Zle_Qle.
    + apply Qceiling_lt.
  - intros Hi.
    assert (Hz : (Z.of_nat i < Qceiling q)%Z).
    { rewrite Zlt_Qlt. eapply Qlt_le_trans; [exact Hi | apply Qle_ceiling]. }
    lia.
Qed.

Lemma Qceiling_least (q : Q) (z : Z) :
  (q <= inject_Z z)%Q -> (Qceiling q <= z)%Z.
Proof.
  intros H. rewrite <- (Qceiling_Z z). now apply Qceiling_resp_le.
Qed.

Lemma Math_ceil_sqrt_spec (q : Q) :
  is_ceil_sqrt q (JS.Math_ceil (JS.Math_sqrt q)).
Proof.
  unfold is_ceil_sqrt, JS.Math_ceil, JS.Math_sqrt. cbn [JS.radicand].
  set (c := Qceiling q).
  assert (Hqc : (q <= inject_Z c)%Q) by apply Qle_ceiling.
  split; [apply Z.sqrt_up_nonneg |].
  destruct (Z.lt_ge_cases 0 c) as [Hpos | Hneg].
  - pose proof (Z.sqrt_up_spec c Hpos) as [Hlo Hhi].
    split.
    + eapply Qle_trans; [exact Hqc |]. now rewrite <- Zle_Qle.
    + intros j Hj Hqj. apply Qceiling_least in Hqj. fold c in Hqj.
      pose proof (Z.sqrt_up_nonneg c). nia.
  - rewrite Z.sqrt_up_eqn0 by exact Hneg. split.
    + eapply Qle_trans; [exact Hqc |]. now rewrite <- Zle_Qle.
    + intros j Hj _. exact Hj.
Qed.

Lemma is_ceil_sqrt_unique (q : Q) (k k' : Z) :
  is_ceil_sqrt q k -> is_ceil_sqrt q k' -> k = k'.
Proof.
  intros (Hk & Hq & Hmin) (Hk' & Hq' & Hmin').
  specialize (Hmin k' Hk' Hq'). specialize (Hmin' k Hk Hq). lia.
Qed.

Lemma Qceiling_quotient (a : Z) (b : positive) :
  Qceiling (inject_Z a / inject_Z (Z.pos b)) = (- (- a / Z.pos b))%Z.
Proof.
  unfold Qceiling. f_equal. rewrite Zdiv_Qdiv. apply Qfloor_comp.
  rewrite inject_Z_opp. field. discriminate.
Qed.

Lemma nodeCountOf_whole (root : ArrayBuffer) (n : nat) :
  holdsNodes root n -> (nodeCountOf root == inject_Z (Z.of_nat n))%Q.
Proof.
  unfold holdsNodes, nodeCountOf. intros ->.
  rewrite Nat2Z.inj_mul, inject_Z_mult. field. discriminate.
Qed.

Lemma iterations_whole (root : ArrayBuffer) (n : nat) :
  holdsNodes root n -> iterations (nodeCountOf root) = n.
Proof.
  intros H. unfold iterations.
  rewrite (Qceiling_comp _ _ (nodeCountOf_whole root n H)), Qceiling_Z.
  apply Nat2Z.id.
Qed.

(** On the byte lengths where a dimension changes, for squares of small
    sides and of the largest sides a byte length below [2 ^ 53] allows, and
    on every small buffer, binary64 returns the dimensions of the exact
    model. *)
Lemma binary64_dimensions_agree :
  forallb (fun k => forallb dimensionsAgree (boundaryLengths (Z.of_nat k)))
    (seq 1 150) = true /\
  forallb (fun k => forallb dimensionsAgree
                      (boundaryLengths (2 ^ 24 - Z.of_nat k)))
    (seq 1 20) = true /\
  forallb (fun k => forallb dimensionsAgree
                      (boundaryLengths (11863283 - Z.of_nat k)))
    (seq 0 20) = true /\
  forallb (fun k => dimensionsAgree (4 * Z.of_nat k)) (seq 0 300) = true.
Proof.
  split; [| split; [| split]]; vm_compute; reflexivity.
Qed.

(** The same for the grid side, for the configured constants and for
    small image widths with several workgroup dimensions. *)
Lemma binary64_dispatch_agree :
  dispatchAgrees imageWidth maxWorkgroupDimension = true /\
  forallb (fun w => forallb (dispatchAgrees (Z.of_nat w)) [1; 3; 8; 16; 64]%Z)
    (seq 0 200) = true /\
  forallb (dispatchAgrees 1024) [1; 2; 3; 4; 7; 8; 32; 64; 100; 256]%Z = true.
Proof.
  split; [| split]; vm_compute; reflexivity.
Qed.

(** ** One node of the loop *)

Lemma for_lt_3 {S : Type} (body : nat -> S -> S) (s : S) :
  for_lt 3 body s = body 2 (body 1 (body 0 s)).
Proof. reflexivity. Qed.

Lemma nodeIndex32_eq (i : nat) : i * BYTES_PER_NODE / 4 = 8 * i.
Proof.
  unfold BYTES_PER_NODE. change (6 * 4 + 4 + 4) with (8 * 4).
  rewrite Nat.mul_assoc, Nat.div_mul by discriminate. lia.
Qed.

Lemma encodeNode_contents (u16 u32 : list Z) (f32 : list float32) (i : nat)
    (st : list float32 * list Z) :
  (encodeNode u16 u32 f32 i st).2 =
  <[i * 2 + 1 := (contentsPair u16 u32 i).2]>
    (<[i * 2 + 0 := (contentsPair u16 u32 i).1]> st.2).
Proof.
  destruct st as [B C]. unfold encodeNode, contentsPair.
  rewrite nodeIndex32_eq. unfold getBoundingDataIndex.
  destruct (isLeaf (8 * i * 2) u16); reflexivity.
Qed.

Lemma encodeNode_bounds (u16 u32 : list Z) (f32 : list float32) (i : nat)
    (st : list float32 * list Z) :
  (encodeNode u16 u32 f32 i st).1 =
  for_lt 3 (fun b B =>
      Float32Array_set
        (Float32Array_set B (8 * i + 0 + b) (f32 !! (8 * i + 0 + b)))
        (8 * i + 4 + b) (f32 !! (8 * i + 3 + b))) st.1.
Proof.
  destruct st as [B C]. unfold encodeNode.
  rewrite nodeIndex32_eq. unfold getBoundingDataIndex.
  destruct (isLeaf (8 * i * 2) u16); reflexivity.
Qed.

Lemma list_lookup_insert_same {A : Type} (l : list A) (i j : nat) (x : A) :
  i = j -> j < length l -> <[i := x]> l !! j = Some x.
Proof. intros -> H. now apply list_lookup_insert_eq. Qed.

Ltac insert_others :=
  repeat (rewrite list_lookup_insert_ne by lia).

Ltac insert_here :=
  rewrite list_lookup_insert_same by (rewrite ?length_insert; simpl in *; lia).

Lemma encodeNode_bounds_length u16 u32 f32 i (st : list float32 * list Z) :
  length (encodeNode u16 u32 f32 i st).1 = length st.1.
Proof.
  rewrite encodeNode_bounds, for_lt_3. unfold Float32Array_set.
  now rewrite !length_insert.
Qed.

Lemma encodeNode_contents_length u16 u32 f32 i (st : list float32 * list Z) :
  length (encodeNode u16 u32 f32 i st).2 = length st.2.
Proof. rewrite encodeNode_contents. now rewrite !length_insert. Qed.

Lemma encodeNode_bounds_other u16 u32 f32 i (st : list float32 * list Z)
    (idx : nat) :
  idx < 8 * i \/ 8 * i + 8 <= idx \/ idx = 8 * i + 3 \/ idx = 8 * i + 7 ->
  (encodeNode u16 u32 f32 i st).1 !! idx = st.1 !! idx.
Proof.
  intros H. rewrite encodeNode_bounds, for_lt_3. unfold Float32Array_set.
  now insert_others.
Qed.

Lemma encodeNode_bounds_min u16 u32 f32 i (st : list float32 * list Z)
    (b : nat) :
  b < 3 -> 8 * i + b < length st.1 ->
  (encodeNode u16 u32 f32 i st).1 !! (8 * i + b) =
  Some (default F32NaN (f32 !! (8 * i + b))).
Proof.
  intros Hb Hlen. rewrite encodeNode_bounds, for_lt_3. unfold Float32Array_set.
  assert (Hcase : b = 0 \/ b = 1 \/ b = 2) by lia.
  destruct Hcase as [-> | [-> | ->]]; insert_others; insert_here;
    do 3 f_equal; lia.
Qed.

Lemma encodeNode_bounds_max u16 u32 f32 i (st : list float32 * list Z)
    (b : nat) :
  b < 3 -> 8 * i + 4 + b < length st.1 ->
  (encodeNode u16 u32 f32 i st).1 !! (8 * i + 4 + b) =
  Some (default F32NaN (f32 !! (8 * i + 3 + b))).
Proof.
  intros Hb Hlen. rewrite encodeNode_bounds, for_lt_3. unfold Float32Array_set.
  assert (Hcase : b = 0 \/ b = 1 \/ b = 2) by lia.
  destruct Hcase as [-> | [-> | ->]]; insert_others; insert_here;
    reflexivity.
Qed.

Lemma encodeNode_contents_other u16 u32 f32 i (st : list float32 * list Z)
    (idx : nat) :
  idx < 2 * i \/ 2 * i + 2 <= idx ->
  (encodeNode u16 u32 f32 i st).2 !! idx = st.2 !! idx.
Proof.
  intros H. rewrite encodeNode_contents. now insert_others.
Qed.

Lemma encodeNode_contents_pair u16 u32 f32 i (st : list float32 * list Z) :
  2 * i + 1 < length st.2 ->
  (encodeNode u16 u32 f32 i st).2 !! (2 * i) = Some (contentsPair u16 u32 i).1 /\
  (encodeNode u16 u32 f32 i st).2 !! (2 * i + 1) = Some (contentsPair u16 u32 i).2.
Proof.
  intros Hlen. rewrite encodeNode_contents. split.
  - rewrite list_lookup_insert_ne by lia.
    replace (2 * i) with (i * 2 + 0) by lia.
    apply list_lookup_insert_eq. lia.
  - replace (2 * i + 1) with (i * 2 + 1) by lia.
    apply list_lookup_insert_eq. rewrite length_insert. lia.
Qed.

(** ** The loop over the nodes *)

Lemma encodeNodes_S u16 u32 f32 (m : nat) (st : list float32 * list Z) :
  encodeNodes u16 u32 f32 (S m) st =
  encodeNode u16 u32 f32 m (encodeNodes u16 u32 f32 m st).
Proof. unfold encodeNodes. now rewrite seq_S, foldl_app. Qed.

Lemma for_lt_encodeNodes u16 u32 f32 (bound : Q) (st : list float32 * list Z) :
  for_lt bound (encodeNode u16 u32 f32) st =
  encodeNodes u16 u32 f32 (iterations bound) st.
Proof. reflexivity. Qed.

Lemma encodeNodes_length u16 u32 f32 (m : nat) (st : list float32 * list Z) :
  length (encodeNodes u16 u32 f32 m st).1 = length st.1 /\
  length (encodeNodes u16 u32 f32 m st).2 = length st.2.
Proof.
  induction m as [| m [IHb IHc]]; [now split |].
  rewrite encodeNodes_S, encodeNode_bounds_length, encodeNode_contents_length.
  now split.
Qed.

(** Elements past the nodes encoded so far, and the fourth component of
    every group of four, are never written. *)
Lemma encodeNodes_bounds_untouched u16 u32 f32 (m : nat)
    (st : list float32 * list Z) (idx : nat) :
  8 * m <= idx \/ (exists j, idx = 4 * j + 3) ->
  (encodeNodes u16 u32 f32 m st).1 !! idx = st.1 !! idx.
Proof.
  induction m as [| m IH]; intros H; [reflexivity |].
  rewrite encodeNodes_S, encodeNode_bounds_other.
  - apply IH. destruct H as [H | H]; [left; lia | now right].
  - destruct H as [H | [j ->]]; lia.
Qed.

Lemma encodeNodes_contents_untouched u16 u32 f32 (m : nat)
    (st : list float32 * list Z) (idx : nat) :
  2 * m <= idx ->
  (encodeNodes u16 u32 f32 m st).2 !! idx = st.2 !! idx.
Proof.
  induction m as [| m IH]; intros H; [reflexivity |].
  rewrite encodeNodes_S, encodeNode_contents_other by lia.
  apply IH. lia.
Qed.

Lemma encodeNodes_bounds_min u16 u32 f32 (m : nat)
    (st : list float32 * list Z) (i b : nat) :
  i < m -> b < 3 -> 8 * i + b < length st.1 ->
  (encodeNodes u16 u32 f32 m st).1 !! (8 * i + b) =
  Some (default F32NaN (f32 !! (8 * i + b))).
Proof.
  intros Hi Hb Hlen. induction m as [| m IH]; [lia |].
  rewrite encodeNodes_S.
  destruct (decide (i = m)) as [-> | Hne].
  - apply encodeNode_bounds_min; [exact Hb |].
    now rewrite (proj1 (encodeNodes_length _ _ _ _ _)).
  - rewrite encodeNode_bounds_other by lia. apply IH. lia.
Qed.

Lemma encodeNodes_bounds_max u16 u32 f32 (m : nat)
    (st : list float32 * list Z) (i b : nat) :
  i < m -> b < 3 -> 8 * i + 4 + b < length st.1 ->
  (encodeNodes u16 u32 f32 m st).1 !! (8 * i + 4 + b) =
  Some (default F32NaN (f32 !! (8 * i + 3 + b))).
Proof.
  intros Hi Hb Hlen. induction m as [| m IH]; [lia |].
  rewrite encodeNodes_S.
  destruct (decide (i = m)) as [-> | Hne].
  - apply encodeNode_bounds_max; [exact Hb |].
    now rewrite (proj1 (encodeNodes_length _ _ _ _ _)).
  - rewrite encodeNode_bounds_other by lia. apply IH. lia.
Qed.

Lemma encodeNodes_contents_pair u16 u32 f32 (m : nat)
    (st : list float32 * list Z) (i : nat) :
  i < m -> 2 * i + 1 < length st.2 ->
  (encodeNodes u16 u32 f32 m st).2 !! (2 * i) = Some (contentsPair u16 u32 i).1 /\
  (encodeNodes u16 u32 f32 m st).2 !! (2 * i + 1) = Some (contentsPair u16 u32 i).2.
Proof.
  intros Hi Hlen. induction m as [| m IH]; [lia |].
  rewrite encodeNodes_S.
  destruct (decide (i = m)) as [-> | Hne].
  - apply encodeNode_contents_pair.
    now rewrite (proj2 (encodeNodes_length _ _ _ _ _)).
  - rewrite !encodeNode_contents_other by lia. apply IH. lia.
Qed.

(** ** The typed views of a buffer of whole nodes *)

Lemma words16_length (e : endianness) (n : nat) (bs : list byte) :
  length bs = 2 * n -> length (words16 e bs) = n.
Proof.
  revert bs. induction n as [| n IH]; intros bs H.
  - now destruct bs.
  - destruct bs as [| b0 [| b1 rest]]; simpl in H; try lia.
    simpl. f_equal. apply IH. lia.
Qed.

Lemma words32_length (e : endianness) (n : nat) (bs : list byte) :
  length bs = 4 * n -> length (words32 e bs) = n.
Proof.
  revert bs. induction n as [| n IH]; intros bs H.
  - now destruct bs.
  - destruct bs as [| b0 [| b1 [| b2 [| b3 rest]]]]; simpl in H; try lia.
    simpl. f_equal. apply IH. lia.
Qed.

Lemma byte_val_range (b : byte) : (0 <= byte_val b < 2 ^ 8)%Z.
Proof.
  unfold byte_val. pose proof (Byte.to_N_bounded b) as H.
  change (2 ^ 8)%Z with 256%Z. lia.
Qed.

Lemma word16_range (e : endianness) (b0 b1 : byte) :
  (0 <= word16 e b0 b1 < 2 ^ 16)%Z.
Proof.
  pose proof (byte_val_range b0). pose proof (byte_val_range b1).
  destruct e; unfold word16; lia.
Qed.

Lemma word32_range (e : endianness) (b0 b1 b2 b3 : byte) :
  (0 <= word32 e b0 b1 b2 b3 < 2 ^ 32)%Z.
Proof.
  pose proof (word16_range e b0 b1). pose proof (word16_range e b2 b3).
  destruct e; unfold word32; lia.
Qed.

Lemma words16_range (e : endianness) (bs : list byte) (k : nat) (w : Z) :
  words16 e bs !! k = Some w -> (0 <= w < 2 ^ 16)%Z.
Proof.
  revert bs. induction k as [k IH] using lt_wf_ind. intros bs H.
  destruct bs as [| b0 [| b1 rest]]; try discriminate.
  destruct k as [| k]; simpl in H.
  - injection H as <-. apply word16_range.
  - apply (IH k) with rest; [lia | exact H].
Qed.

Lemma words32_range (e : endianness) (bs : list byte) (k : nat) (w : Z) :
  words32 e bs !! k = Some w -> (0 <= w < 2 ^ 32)%Z.
Proof.
  revert bs. induction k as [k IH] using lt_wf_ind. intros bs H.
  destruct bs as [| b0 [| b1 [| b2 [| b3 rest]]]]; try discriminate.
  destruct k as [| k]; simpl in H.
  - injection H as <-. apply word32_range.
  - apply (IH k) with rest; [lia | exact H].
Qed.

(** ** Words stored in the contents array *)

Lemma truncate_Z (z : Z) : JS.truncate (inject_Z z) = z.
Proof.
  unfold JS.truncate. destruct (Qle_bool 0 (inject_Z z));
    [apply Qfloor_Z | apply Qceiling_Z].
Qed.

Lemma ToUint32_word (w : Z) :
  (0 <= w < 2 ^ 32)%Z -> JS.ToUint32 (JS.ToNumber (Some w)) = w.
Proof.
  intros H. unfold JS.ToUint32, JS.ToNumber.
  rewrite truncate_Z. now apply Z.mod_small.
Qed.

Lemma land_high_low (k c : Z) :
  (0 <= c < 2 ^ 16)%Z -> Z.land (k * 2 ^ 16) c = 0%Z.
Proof.
  intros H.
  replace c with (Z.land c (Z.ones 16))
    by (rewrite Z.land_ones by lia; now apply Z.mod_small).
  rewrite (Z.land_comm c), Z.land_assoc, Z.land_ones by lia.
  now rewrite Z.mod_mul, Z.land_0_l by lia.
Qed.

Lemma lor_high_low (k c : Z) :
  (0 <= c < 2 ^ 16)%Z -> Z.lor (k * 2 ^ 16) c = (k * 2 ^ 16 + c)%Z.
Proof.
  intros H. symmetry. apply Z.add_nocarry_lor. now apply land_high_low.
Qed.

Lemma mergedLeafWord_count (count : Z) :
  (0 <= count < 2 ^ 16)%Z ->
  mergedLeafWord (Some count) = Z.lor 0xFFFF0000 count.
Proof.
  intros H. unfold mergedLeafWord, JS.bitor.
  change (JS.ToInt32 (JS.Num (inject_Z 0xffff0000))) with ((-1) * 2 ^ 16)%Z.
  assert (Hc : JS.ToInt32 (JS.ToNumber (Some count)) = count).
  { unfold JS.ToInt32. rewrite ToUint32_word by lia.
    destruct (Z.leb_spec (2 ^ 31) count); [lia | reflexivity]. }
  rewrite Hc, lor_high_low by exact H.
  change 0xFFFF0000%Z with (65535 * 2 ^ 16)%Z.
  rewrite lor_high_low by exact H.
  unfold JS.ToUint32. rewrite truncate_Z.
  replace (-1 * 2 ^ 16 + count)%Z
    with (65535 * 2 ^ 16 + count + -1 * 2 ^ 32)%Z by lia.
  rewrite Z.mod_add by lia. apply Z.mod_small. lia.
Qed.

Lemma rightIndexWord_offset (right : Z) :
  (0 <= right < 2 ^ 32)%Z ->
  rightIndexWord (Some right) = (4 * right / Z.of_nat BYTES_PER_NODE)%Z.
Proof.
  intros H. unfold rightIndexWord, JS.ToNumber, JS.mul, JS.div, JS.of_nat.
  unfold JS.ToUint32, JS.truncate.
  change (Z.of_nat BYTES_PER_NODE) with 32%Z.
  assert (Heq : (4 * inject_Z right / inject_Z 32 == inject_Z (4 * right) / inject_Z 32)%Q).
  { rewrite inject_Z_mult. reflexivity. }
  assert (Hfloor : Qfloor (4 * inject_Z right / inject_Z 32) = (4 * right / 32)%Z).
  { rewrite (Qfloor_comp _ _ Heq). symmetry. apply Zdiv_Qdiv. }
  assert (Hpos : Qle_bool 0 (4 * inject_Z right / inject_Z 32) = true).
  { apply Qle_bool_iff. rewrite Heq. apply Qle_shift_div_l; [reflexivity |].
    rewrite Qmult_0_l. change 0%Q with (inject_Z 0). rewrite <- Zle_Qle. lia. }
  rewrite Hpos, Hfloor. apply Z.mod_small.
  split; [apply Z.div_pos; lia | apply Z.div_lt_upper_bound; lia].
Qed.

(** The test a traversal applies to the first word of a pair. *)
Lemma leaf_test_merged (count : Z) :
  (0 <= count < 2 ^ 16)%Z ->
  Z.land (Z.lor 0xFFFF0000 count) 0xFFFF0000 = 0xFFFF0000%Z.
Proof.
  intros H. rewrite Z.land_comm, Z.land_lor_distr_r, Z.land_diag.
  change 0xFFFF0000%Z with (65535 * 2 ^ 16)%Z.
  now rewrite land_high_low, Z.lor_0_r.
Qed.

Lemma leaf_test_small (axis : Z) :
  (0 <= axis < 2 ^ 16)%Z -> Z.land axis 0xFFFF0000 = 0%Z.
Proof.
  intros H. rewrite Z.land_comm.
  change 0xFFFF0000%Z with (65535 * 2 ^ 16)%Z. now apply land_high_low.
Qed.

(** ** The encoder on a buffer of whole nodes *)

Lemma is_ceil_sqrt_comp (q q' : Q) (k : Z) :
  (q == q')%Q -> is_ceil_sqrt q k -> is_ceil_sqrt q' k.
Proof.
  intros Heq (Hk & Hq & Hmin). split; [exact Hk |]. split.
  - now rewrite <- Heq.
  - intros j Hj Hqj. apply Hmin; [exact Hj |]. now rewrite Heq.
Qed.

Lemma half_le (n k : Z) : (inject_Z n / 2 <= inject_Z k)%Q <-> (n <= 2 * k)%Z.
Proof. unfold Qle. simpl. lia. Qed.

Section WholeNodes.

Variable e : endianness.
Variable root : ArrayBuffer.
Variable n : nat.
Hypothesis Hwhole : holdsNodes root n.

Let u16 : list Z := words16 e root.
Let u32 : list Z := words32 e root.
Let f32 : list float32 := float32_of_bits <$> words32 e root.
Let halfSide : Z := JS.Math_ceil (JS.Math_sqrt (nodeCountOf root / 2)).
Let bd : Z := (2 * halfSide)%Z.
Let cd : Z := JS.Math_ceil (JS.Math_sqrt (nodeCountOf root)).
Let blank : list float32 * list Z :=
  (Float32Array_alloc (4 * bd * bd), Uint32Array_alloc (2 * cd * cd)).

Lemma u16_length : length (words16 e root) = 16 * n.
Proof.
  apply words16_length. unfold holdsNodes, byteLength, BYTES_PER_NODE in Hwhole.
  lia.
Qed.

Lemma u32_length : length (words32 e root) = 8 * n.
Proof.
  apply words32_length. unfold holdsNodes, byteLength, BYTES_PER_NODE in Hwhole.
  lia.
Qed.

Lemma contentsDimension_whole :
  is_ceil_sqrt (inject_Z (Z.of_nat n))
    (JS.Math_ceil (JS.Math_sqrt (nodeCountOf root))).
Proof.
  eapply is_ceil_sqrt_comp; [| apply Math_ceil_sqrt_spec].
  now apply nodeCountOf_whole.
Qed.

Lemma halfSide_whole :
  is_ceil_sqrt (inject_Z (Z.of_nat n) / 2)
    (JS.Math_ceil (JS.Math_sqrt (nodeCountOf root / 2))).
Proof.
  eapply is_ceil_sqrt_comp; [| apply Math_ceil_sqrt_spec].
  now rewrite (nodeCountOf_whole root n Hwhole).
Qed.

Lemma contents_capacity : 2 * n <= length blank.2.
Proof.
  unfold blank, Uint32Array_alloc. cbn [snd]. rewrite length_replicate.
  destruct contentsDimension_whole as (Hk & Hq & _). fold cd in Hk, Hq.
  rewrite <- Zle_Qle in Hq. nia.
Qed.

Lemma bounds_capacity : 8 * n <= length blank.1.
Proof.
  unfold blank, Float32Array_alloc. cbn [fst]. rewrite length_replicate.
  destruct halfSide_whole as (Hk & Hq & _). fold halfSide in Hk, Hq.
  apply half_le in Hq. unfold bd. nia.
Qed.

Lemma bvhToTextures_whole :
  bvhToTextures e {| _roots := [root] |} =
  JS.Ok {| boundsArray := (encodeNodes u16 u32 f32 n blank).1;
           contentsArray := (encodeNodes u16 u32 f32 n blank).2;
           boundsDimension := bd;
           contentsDimension := cd |}.
Proof.
  unfold bvhToTextures. cbn [_roots].
  unfold new_Uint16Array, new_Uint32Array, new_Float32Array.
  assert (H2 : byteLength root mod 2 = 0).
  { rewrite Hwhole. change BYTES_PER_NODE with (16 * 2).
    rewrite (Nat.mul_comm (16 * 2)), Nat.mul_assoc. apply Nat.Div0.mod_mul. }
  assert (H4 : byteLength root mod 4 = 0).
  { rewrite Hwhole. change BYTES_PER_NODE with (8 * 4).
    rewrite (Nat.mul_comm (8 * 4)), Nat.mul_assoc. apply Nat.Div0.mod_mul. }
  rewrite H2, H4. cbn [Nat.eqb JS.bind].
  rewrite for_lt_encodeNodes, (iterations_whole root n Hwhole).
  fold u16 u32 f32 halfSide bd cd blank. change (float32_of_bits <$> u32) with f32.
  now destruct (encodeNodes u16 u32 f32 n blank).
Qed.

Lemma whole_lengths :
  length (encodeNodes u16 u32 f32 n blank).1 = Z.to_nat (4 * bd * bd) /\
  length (encodeNodes u16 u32 f32 n blank).2 = Z.to_nat (2 * cd * cd).
Proof.
  destruct (encodeNodes_length u16 u32 f32 n blank) as [-> ->].
  unfold blank, Float32Array_alloc, Uint32Array_alloc. cbn [fst snd].
  now rewrite !length_replicate.
Qed.

Lemma whole_bounds_capacity :
  8 * n <= length (encodeNodes u16 u32 f32 n blank).1.
Proof.
  rewrite (proj1 (encodeNodes_length u16 u32 f32 n blank)).
  exact bounds_capacity.
Qed.

Lemma f32_lookup (k : nat) :
  k < 8 * n -> Some (default F32NaN (f32 !! k)) = f32 !! k.
Proof.
  intros Hk. destruct (f32 !! k) as [x |] eqn:Hx; [reflexivity |].
  apply lookup_ge_None_1 in Hx. unfold f32 in Hx.
  rewrite length_fmap, u32_length in Hx. lia.
Qed.

Lemma whole_bounds_min (i b : nat) :
  i < n -> b < 3 ->
  (encodeNodes u16 u32 f32 n blank).1 !! (8 * i + b) = f32 !! (8 * i + b).
Proof.
  intros Hi Hb. pose proof bounds_capacity.
  rewrite encodeNodes_bounds_min by lia. apply f32_lookup. lia.
Qed.

Lemma whole_bounds_max (i b : nat) :
  i < n -> b < 3 ->
  (encodeNodes u16 u32 f32 n blank).1 !! (8 * i + 4 + b) =
  f32 !! (8 * i + 3 + b).
Proof.
  intros Hi Hb. pose proof bounds_capacity.
  rewrite encodeNodes_bounds_max by lia. apply f32_lookup. lia.
Qed.

Lemma whole_bounds_zero (idx : nat) :
  8 * n <= idx \/ (exists j, idx = 4 * j + 3) ->
  idx < length (encodeNodes u16 u32 f32 n blank).1 ->
  (encodeNodes u16 u32 f32 n blank).1 !! idx = Some f32_zero.
Proof.
  intros H Hlen. rewrite (proj1 whole_lengths) in Hlen.
  rewrite encodeNodes_bounds_untouched by exact H.
  unfold blank, Float32Array_alloc. cbn [fst].
  now apply lookup_replicate_2.
Qed.

Lemma whole_contents_zero (idx : nat) :
  2 * n <= idx ->
  idx < length (encodeNodes u16 u32 f32 n blank).2 ->
  (encodeNodes u16 u32 f32 n blank).2 !! idx = Some 0%Z.
Proof.
  intros H Hlen. rewrite (proj2 whole_lengths) in Hlen.
  rewrite encodeNodes_contents_untouched by exact H.
  unfold blank, Uint32Array_alloc. cbn [snd].
  now apply lookup_replicate_2.
Qed.

Lemma whole_contents_pair (i : nat) :
  i < n ->
  (encodeNodes u16 u32 f32 n blank).2 !! (2 * i) =
    Some (contentsPair u16 u32 i).1 /\
  (encodeNodes u16 u32 f32 n blank).2 !! (2 * i + 1) =
    Some (contentsPair u16 u32 i).2.
Proof.
  intros Hi. pose proof contents_capacity.
  apply encodeNodes_contents_pair; lia.
Qed.

(** Every field of a node below [n] is inside the views. *)
Lemma u16_field (i k : nat) :
  i < n -> k < 16 ->
  exists w, u16 !! (16 * i + k) = Some w /\ (0 <= w < 2 ^ 16)%Z.
Proof.
  intros Hi Hk.
  destruct (lookup_lt_is_Some_2 u16 (16 * i + k)) as [w Hw].
  { unfold u16. rewrite u16_length. lia. }
  exists w. split; [exact Hw |]. eapply words16_range, Hw.
Qed.

Lemma u32_field (i k : nat) :
  i < n -> k < 8 ->
  exists w, u32 !! (8 * i + k) = Some w /\ (0 <= w < 2 ^ 32)%Z.
Proof.
  intros Hi Hk.
  destruct (lookup_lt_is_Some_2 u32 (8 * i + k)) as [w Hw].
  { unfold u32. rewrite u32_length. lia. }
  exists w. split; [exact Hw |]. eapply words32_range, Hw.
Qed.

Lemma f32_field (i k : nat) :
  i < n -> k < 8 -> exists x, f32 !! (8 * i + k) = Some x.
Proof.
  intros Hi Hk. apply lookup_lt_is_Some_2.
  unfold f32. rewrite length_fmap, u32_length. lia.
Qed.

End WholeNodes.

(** ** Properties of the encoder *)

(** C1. For a single root holding [n] whole nodes the encoder returns, and
    for every node [i < n]: the three min components are at
    [boundsArray[8i .. 8i+2]], the three max components at
    [boundsArray[8i+4 .. 8i+6]]; a leaf has
    [contentsArray[2i] = 0xFFFF0000 | triangleCount] and
    [contentsArray[2i+1] = triangleOffset]; an internal node has
    [contentsArray[2i] = splitAxis] and [contentsArray[2i+1]] the right
    child's byte offset (four times the stored 32-bit word index) divided
    by the node stride. *)
Theorem C1_nodes_written (e : endianness) (root : ArrayBuffer) (n : nat) :
  holdsNodes root n ->
  exists t : Textures,
    bvhToTextures e {| _roots := [root] |} = JS.Ok t /\
    let uint16Array := words16 e root in
    let uint32Array := words32 e root in
    let float32Array := float32_of_bits <$> words32 e root in
    forall i : nat, i < n ->
      let nodeIndex32 := i * BYTES_PER_NODE / 4 in
      let nodeIndex16 := nodeIndex32 * 2 in
      let boundsIndex := getBoundingDataIndex nodeIndex32 in
      (forall b : nat, b < 3 ->
         exists lo hi : float32,
           float32Array !! (boundsIndex + b) = Some lo /\
           float32Array !! (boundsIndex + 3 + b) = Some hi /\
           boundsArray t !! (8 * i + b) = Some lo /\
           boundsArray t !! (8 * i + 4 + b) = Some hi) /\
      (if isLeaf nodeIndex16 uint16Array then
         exists triangleCount triangleOffset : Z,
           getCount nodeIndex16 uint16Array = Some triangleCount /\
           getAtOffset nodeIndex32 uint32Array = Some triangleOffset /\
           contentsArray t !! (2 * i) = Some (Z.lor 0xFFFF0000 triangleCount) /\
           contentsArray t !! (2 * i + 1) = Some triangleOffset
       else
         exists splitAxis rightChild : Z,
           getSplitAxis nodeIndex32 uint32Array = Some splitAxis /\
           getRightNode nodeIndex32 uint32Array = Some rightChild /\
           contentsArray t !! (2 * i) = Some splitAxis /\
           contentsArray t !! (2 * i + 1) =
             Some (4 * rightChild / Z.of_nat BYTES_PER_NODE)%Z).
Proof.
  intros H. rewrite (bvhToTextures_whole e root n H).
  eexists. split; [reflexivity |]. cbv zeta. cbn [boundsArray contentsArray].
  intros i Hi. rewrite nodeIndex32_eq.
  unfold getBoundingDataIndex. split.
  - intros b Hb.
    destruct (f32_field e root n H i b Hi) as [lo Hlo]; [lia |].
    destruct (f32_field e root n H i (3 + b) Hi) as [hi Hhi]; [lia |].
    replace (8 * i + (3 + b)) with (8 * i + 3 + b) in Hhi by lia.
    exists lo, hi.
    rewrite (whole_bounds_min e root n H i b Hi Hb).
    rewrite (whole_bounds_max e root n H i b Hi Hb).
    now repeat split.
  - destruct (whole_contents_pair e root n H i Hi) as [H0 H1].
    rewrite H0, H1. unfold contentsPair.
    unfold getCount, getAtOffset, getSplitAxis, getRightNode.
    destruct (u16_field e root n H i 14 Hi) as (c & Hc & Hcr); [lia |].
    destruct (u32_field e root n H i 6 Hi) as (w6 & Hw6 & Hw6r); [lia |].
    destruct (u32_field e root n H i 7 Hi) as (w7 & Hw7 & Hw7r); [lia |].
    replace (8 * i * 2 + 14) with (16 * i + 14) by lia.
    rewrite Hc, Hw6, Hw7.
    destruct (isLeaf (8 * i * 2) (words16 e root)); cbn [fst snd].
    + exists c, w6. rewrite mergedLeafWord_count, ToUint32_word by assumption.
      now repeat split.
    + exists w7, w6. rewrite rightIndexWord_offset, ToUint32_word by assumption.
      now repeat split.
Qed.

(** C2. For a single root holding [n] whole nodes whose internal nodes
    have a split-axis word below [0x10000], and for every node [i < n]:
    [(contentsArray[2i] & 0xFFFF0000) == 0xFFFF0000] holds exactly when
    node [i] is a leaf, that is when its 16-bit word at offset 15 is
    [0xFFFF]. *)
Theorem C2_leaf_discrimination (e : endianness) (root : ArrayBuffer) (n : nat) :
  holdsNodes root n ->
  (forall (i : nat) (splitAxis : Z),
     i < n ->
     isLeaf (16 * i) (words16 e root) = false ->
     getSplitAxis (8 * i) (words32 e root) = Some splitAxis ->
     (splitAxis < 0x10000)%Z) ->
  exists t : Textures,
    bvhToTextures e {| _roots := [root] |} = JS.Ok t /\
    forall i : nat, i < n ->
      exists first : Z,
        contentsArray t !! (2 * i) = Some first /\
        (Z.land first 0xFFFF0000 =? 0xFFFF0000)%Z =
        isLeaf (16 * i) (words16 e root).
Proof.
  intros H Haxis. rewrite (bvhToTextures_whole e root n H).
  eexists. split; [reflexivity |]. cbn [contentsArray].
  intros i Hi.
  destruct (whole_contents_pair e root n H i Hi) as [H0 _].
  rewrite H0. eexists. split; [reflexivity |].
  unfold contentsPair. replace (8 * i * 2) with (16 * i) by lia.
  destruct (u16_field e root n H i 14 Hi) as (c & Hc & Hcr); [lia |].
  destruct (u32_field e root n H i 7 Hi) as (w7 & Hw7 & Hw7r); [lia |].
  destruct (isLeaf (16 * i) (words16 e root)) eqn:Hleaf; cbn [fst].
  - unfold getCount. rewrite Hc, mergedLeafWord_count by assumption.
    rewrite leaf_test_merged by assumption. reflexivity.
  - specialize (Haxis i w7 Hi Hleaf Hw7).
    unfold getSplitAxis. rewrite Hw7, ToUint32_word by assumption.
    rewrite leaf_test_small by lia. reflexivity.
Qed.

Lemma words32_little_endian (bs : list byte) (k : nat) (w : Z) :
  words32 LittleEndian bs !! k = Some w ->
  exists lo hi : Z,
    words16 LittleEndian bs !! (2 * k) = Some lo /\
    words16 LittleEndian bs !! (2 * k + 1) = Some hi /\
    w = (lo + 2 ^ 16 * hi)%Z.
Proof.
  revert bs. induction k as [| k IH]; intros bs H;
    destruct bs as [| b0 [| b1 [| b2 [| b3 rest]]]]; try discriminate H.
  - injection H as <-. eexists. eexists. repeat split.
  - cbn [words32 lookup list_lookup] in H.
    destruct (IH rest H) as (lo & hi & Hlo & Hhi & ->).
    exists lo, hi. split; [| split; [| reflexivity]].
    + replace (2 * S k) with (S (S (2 * k))) by lia. exact Hlo.
    + replace (2 * S k + 1) with (S (S (2 * k + 1))) by lia. exact Hhi.
Qed.

Lemma land_high_half (lo hi : Z) :
  (0 <= lo < 2 ^ 16)%Z -> (0 <= hi < 2 ^ 16)%Z ->
  Z.land (lo + 2 ^ 16 * hi) 0xFFFF0000 = (2 ^ 16 * hi)%Z.
Proof.
  intros Hlo Hhi.
  replace (lo + 2 ^ 16 * hi)%Z with (hi * 2 ^ 16 + lo)%Z by lia.
  rewrite <- lor_high_low by exact Hlo.
  rewrite Z.land_lor_distr_l, (leaf_test_small lo Hlo), Z.lor_0_r.
  change 0xFFFF0000%Z with (Z.shiftl (Z.ones 16) 16).
  rewrite <- (Z.shiftl_mul_pow2 hi 16), <- Z.shiftl_land by lia.
  rewrite Z.land_ones, Z.mod_small, Z.shiftl_mul_pow2 by lia. lia.
Qed.

(** X6. On a little-endian platform the sentinel word is the upper half of
    the split-axis word, and the test separates leaves from internal nodes
    whatever the split-axis word holds. *)
Lemma leaf_discrimination_little_endian (root : ArrayBuffer) (n : nat) :
  holdsNodes root n ->
  exists t : Textures,
    bvhToTextures LittleEndian {| _roots := [root] |} = JS.Ok t /\
    forall i : nat, i < n ->
      exists first : Z,
        contentsArray t !! (2 * i) = Some first /\
        (Z.land first 0xFFFF0000 =? 0xFFFF0000)%Z =
        isLeaf (16 * i) (words16 LittleEndian root).
Proof.
  intros H. rewrite (bvhToTextures_whole LittleEndian root n H).
  eexists. split; [reflexivity |]. cbn [contentsArray].
  intros i Hi.
  destruct (whole_contents_pair LittleEndian root n H i Hi) as [H0 _].
  rewrite H0. eexists. split; [reflexivity |].
  unfold contentsPair. replace (8 * i * 2) with (16 * i) by lia.
  destruct (u16_field LittleEndian root n H i 14 Hi) as (c & Hc & Hcr); [lia |].
  destruct (u32_field LittleEndian root n H i 7 Hi) as (w7 & Hw7 & Hw7r);
    [lia |].
  destruct (isLeaf (16 * i) (words16 LittleEndian root)) eqn:Hleaf; cbn [fst].
  - unfold getCount. rewrite Hc, mergedLeafWord_count by assumption.
    rewrite leaf_test_merged by assumption. reflexivity.
  - unfold getSplitAxis. rewrite Hw7, ToUint32_word by assumption.
    destruct (words32_little_endian root (8 * i + 7) w7 Hw7)
      as (lo & hi & Hlo & Hhi & ->).
    pose proof (words16_range _ _ _ _ Hlo) as Hlor.
    pose proof (words16_range _ _ _ _ Hhi) as Hhir.
    rewrite land_high_half by assumption.
    unfold isLeaf, JS.strict_eq in Hleaf.
    replace (2 * (8 * i + 7) + 1) with (16 * i + 15) in Hhi by lia.
    rewrite Hhi in Hleaf. apply Z.eqb_neq in Hleaf.
    apply Z.eqb_neq. lia.
Qed.

(** C3. The encoder throws the unsupported-structure error exactly when
    the root list is not a single root; it then returns no arrays. *)
Theorem C3_single_root_only (e : endianness) (bvh : MeshBVHInternal) :
  (length (_roots bvh) <> 1 ->
   bvhToTextures e bvh = JS.Throw UnsupportedStructureError /\
   forall t : Textures, bvhToTextures e bvh <> JS.Ok t) /\
  (length (_roots bvh) = 1 ->
   bvhToTextures e bvh <> JS.Throw UnsupportedStructureError).
Proof.
  destruct bvh as [roots]. cbn [_roots]. split.
  - intros Hlen.
    assert (Hthrow : bvhToTextures e {| _roots := roots |} =
                     JS.Throw UnsupportedStructureError).
    { destruct roots as [| root [| root' rest]]; try reflexivity.
      now contradict Hlen. }
    split; [exact Hthrow |]. intros t Ht. rewrite Hthrow in Ht. discriminate.
  - intros Hlen.
    destruct roots as [| root [| root' rest]]; try discriminate Hlen.
    unfold bvhToTextures. cbn [_roots].
    unfold new_Uint16Array, new_Uint32Array, new_Float32Array.
    destruct (byteLength root mod 2 =? 0); [| discriminate].
    destruct (byteLength root mod 4 =? 0); [| discriminate].
    cbn [JS.bind].
    match goal with
    | |- (let '(_, _) := ?p in _) <> _ => destruct p
    end.
    discriminate.
Qed.

(** C4. For a single root holding [n] whole nodes the encoder returns
    [contentsDimension = ceil(sqrt(n))] with a contents array of
    [2 * contentsDimension^2] elements and
    [boundsDimension = 2 * ceil(sqrt(n / 2))] with a bounds array of
    [4 * boundsDimension^2] elements; hence
    [boundsDimension^2 >= ceil(n / 2)] and [contentsDimension^2 >= n]. *)
Theorem C4_dimensions (e : endianness) (root : ArrayBuffer) (n : nat) :
  holdsNodes root n ->
  exists t : Textures,
    bvhToTextures e {| _roots := [root] |} = JS.Ok t /\
    (nodeCountOf root == inject_Z (Z.of_nat n))%Q /\
    is_ceil_sqrt (inject_Z (Z.of_nat n)) (contentsDimension t) /\
    Z.of_nat (length (contentsArray t)) =
      (2 * contentsDimension t * contentsDimension t)%Z /\
    (exists half : Z,
       is_ceil_sqrt (inject_Z (Z.of_nat n) / 2) half /\
       boundsDimension t = (2 * half)%Z) /\
    Z.of_nat (length (boundsArray t)) =
      (4 * boundsDimension t * boundsDimension t)%Z /\
    ((Z.of_nat n + 1) / 2 <= boundsDimension t * boundsDimension t)%Z /\
    (Z.of_nat n <= contentsDimension t * contentsDimension t)%Z.
Proof.
  intros H. rewrite (bvhToTextures_whole e root n H).
  eexists. split; [reflexivity |].
  cbn [boundsArray contentsArray boundsDimension contentsDimension].
  destruct (whole_lengths e root n) as [Hb Hc].
  pose proof (contentsDimension_whole root n H) as Hcd.
  pose proof (halfSide_whole root n H) as Hhalf.
  set (cd := JS.Math_ceil (JS.Math_sqrt (nodeCountOf root))) in *.
  set (half := JS.Math_ceil (JS.Math_sqrt (nodeCountOf root / 2))) in *.
  destruct Hcd as (Hcd0 & Hcd1 & Hcd2). destruct Hhalf as (Hh0 & Hh1 & Hh2).
  pose proof Hcd1 as Hcd1'. rewrite <- Zle_Qle in Hcd1'.
  pose proof Hh1 as Hh1'. apply half_le in Hh1'.
  split; [now apply nodeCountOf_whole |].
  split; [now repeat split |].
  split; [rewrite Hc; nia |].
  split; [exists half; now repeat split |].
  split; [rewrite Hb; nia |].
  split; [| exact Hcd1'].
  apply Z.lt_succ_r, Z.div_lt_upper_bound; nia.
Qed.

(** C6 (as the code has it). When the buffer is empty ([nodeCount == 0])
    the encoder returns without error, both dimensions are 0 and both
    arrays are empty. *)
Theorem C6_empty_buffer (e : endianness) (root : ArrayBuffer) :
  (nodeCountOf root == 0)%Q ->
  bvhToTextures e {| _roots := [root] |} =
  JS.Ok {| boundsArray := [];
           contentsArray := [];
           boundsDimension := 0;
           contentsDimension := 0 |}.
Proof.
  intros H0.
  assert (Hroot : root = []).
  { unfold nodeCountOf, byteLength in H0. destruct root as [| b rest];
      [reflexivity |].
    exfalso. revert H0. unfold Qeq. cbn [length]. simpl. lia. }
  subst root. destruct e; reflexivity.
Qed.

(** C9. For a single root holding [n] whole nodes, every element the loop
    does not write is zero: [boundsArray] from index [8n] on,
    [contentsArray] from index [2n] on, and the fourth component
    [boundsArray[8i+3]], [boundsArray[8i+7]] of both groups of every node
    [i < n]. *)
Theorem C9_unwritten_zero (e : endianness) (root : ArrayBuffer) (n : nat) :
  holdsNodes root n ->
  exists t : Textures,
    bvhToTextures e {| _roots := [root] |} = JS.Ok t /\
    (forall idx : nat,
       8 * n <= idx -> idx < length (boundsArray t) ->
       boundsArray t !! idx = Some f32_zero) /\
    (forall idx : nat,
       2 * n <= idx -> idx < length (contentsArray t) ->
       contentsArray t !! idx = Some 0%Z) /\
    (forall i : nat, i < n ->
       boundsArray t !! (8 * i + 3) = Some f32_zero /\
       boundsArray t !! (8 * i + 7) = Some f32_zero).
Proof.
  intros H. rewrite (bvhToTextures_whole e root n H).
  eexists. split; [reflexivity |]. cbn [boundsArray contentsArray].
  pose proof (whole_bounds_capacity e root n H) as Hcap.
  split; [| split].
  - intros idx Hidx Hin. apply whole_bounds_zero; [now left | exact Hin].
  - intros idx Hidx Hin. now apply whole_contents_zero.
  - intros i Hi. split; apply whole_bounds_zero; try lia.
    + right. exists (2 * i). lia.
    + right. exists (2 * i + 1). lia.
Qed.

(** ** Dispatch sizing *)

Lemma computePassesFor_square (W G s : Z) :
  (0 < G)%Z -> (W * W = G * (s * s))%Z -> computePassesFor W G = (s * s)%Z.
Proof.
  intros HG HW. unfold computePassesFor, JS.Math_ceilQ.
  destruct G as [| g | g]; try lia.
  rewrite Qceiling_quotient, HW.
  rewrite <- Z.mul_opp_r, Z.mul_comm, Z.div_mul by lia. lia.
Qed.

Lemma dispatchSide_square (W G s : Z) :
  (0 < G)%Z -> (0 <= s)%Z -> (W * W = G * (s * s))%Z -> dispatchSide W G = s.
Proof.
  intros HG Hs HW. unfold dispatchSide, GPUSize32, JS.Math_sqrt.
  cbn [JS.radicand]. rewrite (computePassesFor_square W G s HG HW).
  rewrite Qfloor_Z. now apply Z.sqrt_square.
Qed.

Lemma computePassesFor_ceiling (W G : Z) :
  (0 < G)%Z ->
  (G * (computePassesFor W G - 1) < W * W <= G * computePassesFor W G)%Z.
Proof.
  intros HG. unfold computePassesFor, JS.Math_ceilQ.
  destruct G as [| g | g]; try lia.
  rewrite Qceiling_quotient.
  pose proof (Z.div_mod (- (W * W)) (Z.pos g) ltac:(lia)) as Hdiv.
  pose proof (Z.mod_pos_bound (- (W * W)) (Z.pos g) ltac:(lia)) as Hmod.
  nia.
Qed.

Lemma dispatchSide_sqrt (W G : Z) :
  dispatchSide W G = Z.sqrt (computePassesFor W G).
Proof.
  unfold dispatchSide, GPUSize32, JS.Math_sqrt. cbn [JS.radicand].
  now rewrite Qfloor_Z.
Qed.

(** An integer bounds the quotient [W * W / G] exactly when it bounds the
    pass count. *)
Lemma quotient_le_passes (W G k : Z) :
  (inject_Z (W * W) / inject_Z G <= inject_Z k)%Q <->
  (computePassesFor W G <= k)%Z.
Proof.
  unfold computePassesFor, JS.Math_ceilQ. split.
  - apply Qceiling_least.
  - intros H. eapply Qle_trans; [apply Qle_ceiling |]. now rewrite <- Zle_Qle.
Qed.

(** C5 (as the code has it). For every image width [W <> 0] and workgroup
    dimension [G > 0], the image height being the image width: the pass
    count is [ceil(W * W / G)] and the grid side is the integer part of its
    square root. A grid one smaller never covers the image:
    [(side - 1)^2 * G < W * W]. The side is [ceil(sqrt(W * W / G))] and the
    grid covers the image, [side^2 * G >= W * W], exactly when the pass
    count is a perfect square; otherwise the side is
    [ceil(sqrt(W * W / G)) - 1] and [side^2 * G < W * W]. *)
Theorem C5_dispatch_side (W G : Z) :
  (0 < G)%Z -> W <> 0%Z ->
  let passes := computePassesFor W G in
  let side := dispatchSide W G in
  (G * (passes - 1) < W * W <= G * passes)%Z /\
  (0 <= side)%Z /\
  (side * side <= passes < (side + 1) * (side + 1))%Z /\
  ((side - 1) * (side - 1) * G < W * W)%Z /\
  (coveringSide (W * W) G side <-> (side * side = passes)%Z) /\
  ((side * side <> passes)%Z ->
   is_ceil_sqrt (inject_Z (W * W) / inject_Z G) (side + 1) /\
   (side * side * G < W * W)%Z).
Proof.
  intros HG HW passes side.
  pose proof (computePassesFor_ceiling W G HG) as Hpasses.
  fold passes in Hpasses.
  assert (HWW : (0 < W * W)%Z) by nia.
  assert (Hpos : (0 < passes)%Z) by nia.
  assert (Hside : side = Z.sqrt passes) by apply dispatchSide_sqrt.
  pose proof (Z.sqrt_spec passes ltac:(lia)) as Hsqrt.
  pose proof (Z.sqrt_nonneg passes) as Hnonneg.
  rewrite <- Hside in Hsqrt, Hnonneg. unfold Z.succ in Hsqrt.
  assert (Hone : (1 <= side)%Z) by nia.
  assert (Hless : ((side - 1) * (side - 1) <= passes - 1)%Z) by nia.
  assert (Hprev : ((side - 1) * (side - 1) * G < W * W)%Z) by nia.
  assert (Hle : forall k : Z,
            (inject_Z (W * W) / inject_Z G <= inject_Z k)%Q <->
            (passes <= k)%Z) by (intros k; apply quotient_le_passes).
  split; [exact Hpasses |]. split; [exact Hnonneg |].
  split; [lia |]. split; [exact Hprev |]. split; [split |].
  - intros (_ & Hcover & _). nia.
  - intros Heq. split; [| split; [nia | exact Hprev]].
    split; [exact Hnonneg |]. split.
    + apply Hle. lia.
    + intros j Hj Hqj. apply Hle in Hqj. nia.
  - intros Hne. split; [| nia].
    split; [lia |]. split.
    + apply Hle. lia.
    + intros j Hj Hqj. apply Hle in Hqj. nia.
Qed.

(** C5 as the specification states it fails: for a 1024 by 1024 image and workgroup
    dimension 8 the side dispatched is 362, which is not
    [ceil(sqrt(1024 * 1024 / 8)) = 363] and leaves part of the image
    uncovered. *)
Lemma C5_counterexample :
  dispatchSide 1024 8 = 362%Z /\
  ~ coveringSide (1024 * 1024) 8 (dispatchSide 1024 8).
Proof.
  split; [reflexivity |].
  change (dispatchSide 1024 8) with 362%Z.
  intros (_ & Hcover & _). revert Hcover. apply Z.lt_nge. reflexivity.
Qed.

(** ** The frame loop *)

Lemma initial_inv (T : nat) : driverInv T initial.
Proof. split; [cbn; lia |]. left. now repeat split. Qed.

Lemma step_inv (T : nat) (d d' : Driver) (ev : event) :
  driverInv T d -> step T d ev = Some d' -> driverInv T d'.
Proof.
  intros [Hframe Hcases] Hstep. destruct d as [f st rq aw sub con].
  unfold driverInv, renderCalls in *. cbn in Hframe, Hcases.
  destruct ev as [| t0 t1 |]; cbn in Hstep.
  - destruct rq as [| rq]; [discriminate |].
    destruct Hcases as [(Hr & Ha & Hs & Hc) | [(Hr & _) | (Hr & _)]];
      try discriminate Hr.
    subst st aw. injection Hr as ->. injection Hstep as <-.
    cbn. split; [exact Hframe |]. right. left. repeat split. lia.
  - destruct aw; [| discriminate].
    destruct Hcases as [(_ & Ha & _) | [(Hr & _ & Hs & Hc) | (_ & Ha & _)]];
      try discriminate Ha.
    subst rq st. injection Hstep as <-.
    unfold renderResume, scheduleNext. cbn [frame].
    destruct (f <? T) eqn:Hlt; cbn.
    + apply Nat.ltb_lt in Hlt. split; [lia |]. left. repeat split. lia.
    + split; [exact Hframe |]. right. right. now repeat split.
  - destruct aw; [| discriminate].
    destruct Hcases as [(_ & Ha & _) | [(Hr & _ & Hs & Hc) | (_ & Ha & _)]];
      try discriminate Ha.
    subst rq st. injection Hstep as <-. cbn.
    split; [exact Hframe |]. right. right. now repeat split.
Qed.

Lemma exec_inv (T : nat) (events : list event) (d d' : Driver) :
  driverInv T d -> exec T d events = Some d' -> driverInv T d'.
Proof.
  revert d. induction events as [| ev rest IH]; intros d Hinv Hexec.
  - injection Hexec as <-. exact Hinv.
  - cbn in Hexec. destruct (step T d ev) as [d1 |] eqn:Hstep; [| discriminate].
    apply (IH d1); [| exact Hexec]. now apply (step_inv T d d1 ev).
Qed.

Lemma reachable_inv (T : nat) (events : list event) (d : Driver) :
  exec T initial events = Some d -> driverInv T d.
Proof. apply exec_inv, initial_inv. Qed.

(** Without a rejection the loop stops only at the target. *)
Lemma step_stops_at_target (T : nat) (d d' : Driver) (ev : event) :
  driverInv T d -> (stopped d -> frame d = T) ->
  rejects ev = false -> step T d ev = Some d' ->
  stopped d' -> frame d' = T.
Proof.
  intros [Hframe Hcases] Hstop Hev Hstep [Hr' Ha'].
  destruct d as [f st rq aw sub con]. cbn in *.
  destruct ev as [| t0 t1 |]; [| | discriminate Hev]; cbn in Hstep.
  - destruct rq as [| rq]; [discriminate |].
    destruct Hcases as [(Hr & Ha & Hs & Hc) | [(Hr & _) | (Hr & _)]];
      try discriminate Hr.
    subst st aw. injection Hstep as <-. discriminate Ha'.
  - destruct aw; [| discriminate]. injection Hstep as <-.
    unfold renderResume, scheduleNext in *. cbn [frame] in *.
    destruct (f <? T) eqn:Hlt; cbn in *.
    + discriminate Hr'.
    + apply Nat.ltb_ge in Hlt. lia.
Qed.

Lemma exec_stops_at_target (T : nat) (events : list event) (d d' : Driver) :
  driverInv T d -> (stopped d -> frame d = T) ->
  forallb (fun ev => negb (rejects ev)) events = true ->
  exec T d events = Some d' ->
  stopped d' -> frame d' = T.
Proof.
  revert d. induction events as [| ev rest IH]; intros d Hinv Hstop Hall Hexec.
  - injection Hexec as <-. exact Hstop.
  - cbn in Hexec, Hall. apply andb_true_iff in Hall as [Hev Hall].
    apply negb_true_iff in Hev.
    destruct (step T d ev) as [d1 |] eqn:Hstep; [| discriminate].
    apply (IH d1); try assumption.
    + now apply (step_inv T d d1 ev).
    + now apply (step_stops_at_target T d d1 ev).
Qed.

Lemma stopped_no_step (T : nat) (d : Driver) (ev : event) :
  stopped d -> step T d ev = None.
Proof.
  intros [Hr Ha]. destruct ev; cbn; now rewrite ?Hr, ?Ha.
Qed.

(** The run in which every map is fulfilled, from a state with one
    callback queued and [k] more frames to go after this one. *)
Lemma nominal_run (T k : nat) (d : Driver) :
  requested d = 1 -> awaitingMap d = false ->
  resultBufferState d = unmapped -> frame d + k = T ->
  exists d', exec T d (nominal (S k)) = Some d' /\
             stopped d' /\ renderCalls d' = renderCalls d + S k.
Proof.
  revert d. induction k as [| k IH]; intros d Hr Ha Hs Hf;
    destruct d as [f st rq aw sub con]; cbn in Hr, Ha, Hs, Hf; subst rq aw st.
  - cbn. unfold renderResume, scheduleNext. cbn [frame].
    assert (Hlt : (f <? T) = false) by (apply Nat.ltb_ge; lia).
    rewrite Hlt. eexists. split; [reflexivity |].
    split; [now split |]. unfold renderCalls. cbn. lia.
  - change (nominal (S (S k)))
      with (AnimationFrame :: MapFulfilled 0 0 :: nominal (S k)).
    cbn [exec step requested awaitingMap renderStart mapState_eqb
         resultBufferState frame submitted console].
    unfold renderResume, scheduleNext. cbn [frame requested awaitingMap
      resultBufferState submitted console].
    assert (Hlt : (f <? T) = true) by (apply Nat.ltb_lt; lia).
    rewrite Hlt.
    match goal with
    | |- exists d', exec T ?d1 _ = _ /\ _ =>
        destruct (IH d1) as (d' & Hexec & Hstop & Hcalls);
          [reflexivity | reflexivity | reflexivity | cbn; lia |]
    end.
    exists d'. split; [exact Hexec |]. split; [exact Hstop |].
    rewrite Hcalls. unfold renderCalls. cbn. lia.
Qed.


(** X18. For every target, the timestamp read is awaited before the next
    frame is requested: while the map is outstanding no callback is queued
    and no frame can start; the continuation that runs when the map is
    fulfilled logs the GPU time and then requests the next frame when one
    is due. *)
Theorem next_frame_after_read (T : nat) (events : list event) (d : Driver) :
  exec T initial events = Some d ->
  awaitingMap d = true ->
  requested d = 0 /\
  step T d AnimationFrame = None /\
  forall t0 t1 : Z,
    exists d' : Driver,
      step T d (MapFulfilled t0 t1) = Some d' /\
      console d' = (t1 - t0)%Z :: console d /\
      requested d' = (if frame d <? T then 1 else 0).
Proof.
  intros Hexec Haw.
  destruct (reachable_inv T events d Hexec) as [_ Hcases].
  destruct Hcases as [(_ & Ha & _) | [(Hr & _) | (_ & Ha & _)]];
    try (rewrite Ha in Haw; discriminate Haw).
  split; [exact Hr |]. split; [cbn; now rewrite Hr |].
  intros t0 t1. unfold step. rewrite Haw. eexists. split; [reflexivity |].
  unfold renderResume, scheduleNext. cbn [frame].
  destruct (frame d <? T); cbn [console requested]; rewrite ?Hr; now split.
Qed.

(** Were the target raised to one frame, which the source does not do, the
    first [render] call would stop at the await with the second frame due
    and no callback queued. *)
Lemma target_one_next_frame_waits :
  (exists d : Driver,
     exec 1 initial [AnimationFrame] = Some d /\
     awaitingMap d = true /\ frame d < 1 /\ requested d = 0 /\
     step 1 d AnimationFrame = None) /\
  ~ nextFrameIndependentOfMap 1.
Proof.
  split.
  - eexists. split; [reflexivity |]. cbn. repeat split. lia.
  - intros Hspec.
    specialize (Hspec [AnimationFrame] _ eq_refl eq_refl).
    cbn in Hspec. lia.
Qed.


(** X19. For every target, a rejected map skips the timing log and ends
    the [render] call before it requests the next frame: the command
    buffer already submitted stays submitted, nothing is queued and no
    further event can happen. *)
Theorem map_rejection_stops_loop (T : nat) (events : list event)
    (d d' : Driver) :
  exec T initial events = Some d ->
  step T d MapRejected = Some d' ->
  console d' = console d /\
  submitted d' = submitted d /\
  frame d' = frame d /\
  stopped d' /\
  forall ev : event, step T d' ev = None.
Proof.
  intros Hexec Hstep.
  destruct (reachable_inv T events d Hexec) as [_ Hcases].
  cbn in Hstep. destruct (awaitingMap d) eqn:Haw; [| discriminate].
  injection Hstep as <-.
  destruct Hcases as [(_ & Ha & _) | [(Hr & _) | (_ & Ha & _)]];
    try discriminate Ha.
  assert (Hstop : stopped (renderAbort d)) by (split; [exact Hr | reflexivity]).
  repeat split; try reflexivity; try exact Hr.
  intros ev. now apply stopped_no_step.
Qed.

(** Were the target raised to one frame, which the source does not do, a
    rejected map in the first frame would leave the second frame due and
    nothing queued. *)
Lemma target_one_rejection_ends_loop :
  (exists d : Driver,
     exec 1 initial [AnimationFrame; MapRejected] = Some d /\
     frame d < 1 /\ requested d = 0 /\ renderCalls d = 1 /\
     forall ev : event, step 1 d ev = None) /\
  ~ mapFailureKeepsRendering 1.
Proof.
  split.
  - eexists. split; [reflexivity |]. cbn. repeat split; try lia.
    intros ev. now destruct ev.
  - intros Hspec.
    destruct (Hspec [AnimationFrame] _ _ eq_refl eq_refl) as [_ Hnext].
    cbn in Hnext. lia.
Qed.

(** C10 (as the code has it). For a target of [T] frames: the run in
    which every map is fulfilled makes [T + 1] calls of [render] and then
    stops; no run makes more; a run without a rejected map that has
    stopped has made exactly [T + 1]; and with the configured target of 0
    every run that has stopped has made exactly one. *)
Theorem C10_frame_count (T : nat) :
  (exists d : Driver,
     exec T initial (nominal (S T)) = Some d /\
     stopped d /\ renderCalls d = S T) /\
  (forall (events : list event) (d : Driver),
     exec T initial events = Some d -> renderCalls d <= S T) /\
  (forall (events : list event) (d : Driver),
     exec T initial events = Some d ->
     forallb (fun ev => negb (rejects ev)) events = true ->
     stopped d -> renderCalls d = S T) /\
  (forall (events : list event) (d : Driver),
     exec TARGET_FRAMES initial events = Some d ->
     stopped d -> renderCalls d = 1).
Proof.
  split; [| split; [| split]].
  - destruct (nominal_run T T initial) as (d & Hexec & Hstop & Hcalls);
      try reflexivity.
    exists d. split; [exact Hexec |]. split; [exact Hstop |]. exact Hcalls.
  - intros events d Hexec.
    destruct (reachable_inv T events d Hexec) as [Hframe Hcases].
    destruct Hcases as [(_ & _ & _ & Hc) | [(_ & _ & _ & Hc) | (_ & _ & _ & Hc)]];
      lia.
  - intros events d Hexec Hall Hstop.
    assert (Hf : frame d = T).
    { apply (exec_stops_at_target T events initial d); try assumption.
      - apply initial_inv.
      - intros [Hr _]. discriminate Hr. }
    destruct (reachable_inv T events d Hexec) as [_ Hcases].
    destruct Hstop as [Hr Ha].
    destruct Hcases as [(Hr' & _) | [(_ & Ha' & _) | (_ & _ & _ & Hc)]];
      [rewrite Hr in Hr'; discriminate | rewrite Ha in Ha'; discriminate | lia].
  - intros events d Hexec [Hr Ha].
    destruct (reachable_inv TARGET_FRAMES events d Hexec) as [Hframe Hcases].
    unfold TARGET_FRAMES in Hframe.
    destruct Hcases as [(Hr' & _) | [(_ & Ha' & _) | (_ & _ & _ & Hc)]];
      [rewrite Hr in Hr'; discriminate | rewrite Ha in Ha'; discriminate | lia].
Qed.

(** C10 as the specification states it fails: with a target of one frame
    and the first map rejected, the loop stops after a single call of
    [render], not two. *)
Lemma C10_counterexample :
  (exists d : Driver,
     exec 1 initial [AnimationFrame; MapRejected] = Some d /\
     stopped d /\ renderCalls d = 1) /\
  ~ rendersTargetPlusOne 1.
Proof.
  split.
  - eexists. split; [reflexivity |]. now repeat split.
  - intros Hspec.
    specialize (Hspec [AnimationFrame; MapRejected] _ eq_refl).
    discriminate Hspec. now split.
Qed.

(** C6 as the specification states it fails: for the empty buffer both dimensions
    returned are 0 and both arrays are empty. *)
Lemma C6_counterexample :
  bvhToTextures LittleEndian {| _roots := [[]] |} =
    JS.Ok {| boundsArray := [];
             contentsArray := [];
             boundsDimension := 0;
             contentsDimension := 0 |} /\
  ~ emptyBufferMinimumTexture LittleEndian.
Proof.
  split; [reflexivity |].
  intros Hspec. destruct (Hspec [] ltac:(reflexivity)) as (t & Ht & Hcd & _).
  cbv in Ht. injection Ht as <-. discriminate Hcd.
Qed.

(** ** The theorems at concrete inputs *)

Lemma sampleRoot_encoded :
  bvhToTextures LittleEndian {| _roots := [sampleRoot] |} =
  JS.Ok sampleTextures.
Proof. vm_compute. reflexivity. Qed.

(** C1 on [sampleRoot]: the root's pair is (axis 1, right child 2), the
    first leaf's pair is (0xFFFF0002, 0). *)
Lemma C1_nodes_written_witness :
  holdsNodes sampleRoot 3 /\
  exists t : Textures,
    bvhToTextures LittleEndian {| _roots := [sampleRoot] |} = JS.Ok t /\
    boundsArray t !! 0 = Some (F32 0xBF800000) /\
    boundsArray t !! 4 = Some (F32 0x3F800000) /\
    contentsArray t !! 0 = Some 1%Z /\
    contentsArray t !! 1 = Some 2%Z /\
    contentsArray t !! 2 = Some 0xFFFF0002%Z /\
    contentsArray t !! 3 = Some 0%Z.
Proof.
  split; [reflexivity |].
  destruct (C1_nodes_written LittleEndian sampleRoot 3 eq_refl)
    as (t & Ht & Hnodes).
  exists t. split; [exact Ht |].
  destruct (Hnodes 0 ltac:(lia)) as [Hbounds Hroot].
  destruct (Hnodes 1 ltac:(lia)) as [_ Hleaf].
  destruct (Hbounds 0 ltac:(lia)) as (lo & hi & Hlo & Hhi & Hmin & Hmax).
  vm_compute in Hlo, Hhi. injection Hlo as <-. injection Hhi as <-.
  cbv zeta in Hroot, Hleaf.
  change (isLeaf _ _) with false in Hroot.
  change (isLeaf _ _) with true in Hleaf.
  destruct Hroot as (axis & right & Haxis & Hright & Hc0 & Hc1).
  destruct Hleaf as (count & offset & Hcount & Hoffset & Hc2 & Hc3).
  vm_compute in Haxis, Hright, Hcount, Hoffset.
  injection Haxis as <-. injection Hright as <-.
  injection Hcount as <-. injection Hoffset as <-.
  repeat split; assumption.
Defined.

(** C2 on [sampleRoot], whose only internal node has split axis 1: the
    test holds of the second leaf. *)
Lemma C2_leaf_discrimination_witness :
  holdsNodes sampleRoot 3 /\
  exists t : Textures,
    bvhToTextures LittleEndian {| _roots := [sampleRoot] |} = JS.Ok t /\
    exists first : Z,
      contentsArray t !! 4 = Some first /\
      (Z.land first 0xFFFF0000 =? 0xFFFF0000)%Z = true.
Proof.
  split; [reflexivity |].
  destruct (C2_leaf_discrimination LittleEndian sampleRoot 3 eq_refl)
    as (t & Ht & Htest).
  - intros i splitAxis Hi.
    destruct i as [| [| [| i]]]; try lia; vm_compute; intros Hleaf Haxis;
      try discriminate Hleaf.
    injection Haxis as <-. reflexivity.
  - exists t. split; [exact Ht |]. exact (Htest 2 ltac:(lia)).
Defined.

(** C3 on an empty root list, on two roots and on one root. *)
Lemma C3_single_root_only_witness :
  bvhToTextures LittleEndian {| _roots := [] |} =
    JS.Throw UnsupportedStructureError /\
  bvhToTextures LittleEndian {| _roots := [sampleRoot; sampleRoot] |} =
    JS.Throw UnsupportedStructureError /\
  bvhToTextures LittleEndian {| _roots := [sampleRoot] |} <>
    JS.Throw UnsupportedStructureError.
Proof.
  split; [| split].
  - apply (C3_single_root_only LittleEndian {| _roots := [] |}).
    cbn. lia.
  - apply (C3_single_root_only LittleEndian
             {| _roots := [sampleRoot; sampleRoot] |}).
    cbn. lia.
  - apply (C3_single_root_only LittleEndian {| _roots := [sampleRoot] |}).
    reflexivity.
Defined.

Lemma is_ceil_sqrt_3 : is_ceil_sqrt (inject_Z (Z.of_nat 3)) 2.
Proof.
  split; [lia |]. split; [intros Hgt; discriminate Hgt |].
  intros j Hj Hle. change (inject_Z (Z.of_nat 3)) with (inject_Z 3) in Hle.
  rewrite <- Zle_Qle in Hle. nia.
Qed.

Lemma is_ceil_sqrt_3_halves : is_ceil_sqrt (inject_Z (Z.of_nat 3) / 2) 2.
Proof.
  split; [lia |]. split; [intros Hgt; discriminate Hgt |].
  intros j Hj Hle. apply half_le in Hle. nia.
Qed.

(** C4 on [sampleRoot]: three nodes give a 2 by 2 contents texture and a
    4 by 4 bounds texture. *)
Lemma C4_dimensions_witness :
  holdsNodes sampleRoot 3 /\
  exists t : Textures,
    bvhToTextures LittleEndian {| _roots := [sampleRoot] |} = JS.Ok t /\
    contentsDimension t = 2%Z /\ length (contentsArray t) = 8 /\
    boundsDimension t = 4%Z /\ length (boundsArray t) = 64.
Proof.
  split; [reflexivity |].
  destruct (C4_dimensions LittleEndian sampleRoot 3 eq_refl)
    as (t & Ht & _ & Hcd & Hclen & (half & Hhalf & Hbd) & Hblen & _).
  exists t. split; [exact Ht |].
  pose proof (is_ceil_sqrt_unique _ _ _ Hcd is_ceil_sqrt_3) as Hcd2.
  pose proof (is_ceil_sqrt_unique _ _ _ Hhalf is_ceil_sqrt_3_halves) as Hh2.
  rewrite Hcd2 in Hclen. rewrite Hh2 in Hbd. rewrite Hbd in Hblen.
  repeat split; [exact Hcd2 | lia | exact Hbd | lia].
Defined.

(** C5 at the configured constants: the pass count 65536 is a perfect
    square, so the grid of side 256 covers the image and is the smallest
    that does. *)
Lemma C5_dispatch_side_witness :
  (0 < maxWorkgroupDimension)%Z /\ imageWidth <> 0%Z /\
  dispatchSide imageWidth maxWorkgroupDimension = 256%Z /\
  coveringSide (imageWidth * imageHeight) maxWorkgroupDimension
    (dispatchSide imageWidth maxWorkgroupDimension).
Proof.
  assert (HG : (0 < maxWorkgroupDimension)%Z) by reflexivity.
  assert (HW : imageWidth <> 0%Z) by discriminate.
  pose proof (C5_dispatch_side imageWidth maxWorkgroupDimension HG HW) as H.
  cbv zeta in H. destruct H as (_ & _ & _ & _ & Hcover & _).
  split; [exact HG |]. split; [exact HW |]. split; [reflexivity |].
  apply Hcover. reflexivity.
Defined.

(** C6 on the empty buffer. *)
Lemma C6_empty_buffer_witness :
  (nodeCountOf [] == 0)%Q /\
  bvhToTextures BigEndian {| _roots := [[]] |} =
  JS.Ok {| boundsArray := [];
           contentsArray := [];
           boundsDimension := 0;
           contentsDimension := 0 |}.
Proof.
  split; [reflexivity |]. apply (C6_empty_buffer BigEndian []). reflexivity.
Defined.


(** X18 for a target of two frames, after the first call of [render] has
    reached the await. *)
Lemma next_frame_after_read_witness :
  exists d : Driver,
    exec 2 initial [AnimationFrame] = Some d /\
    awaitingMap d = true /\
    requested d = 0 /\
    step 2 d AnimationFrame = None /\
    forall t0 t1 : Z,
      exists d' : Driver,
        step 2 d (MapFulfilled t0 t1) = Some d' /\
        console d' = (t1 - t0)%Z :: console d /\
        requested d' = (if frame d <? 2 then 1 else 0).
Proof.
  eexists. split; [reflexivity |]. split; [reflexivity |].
  apply (next_frame_after_read 2 [AnimationFrame]); reflexivity.
Defined.


(** X19 for a target of two frames, the first map being rejected. *)
Lemma map_rejection_stops_loop_witness :
  exists d d' : Driver,
    exec 2 initial [AnimationFrame] = Some d /\
    step 2 d MapRejected = Some d' /\
    console d' = console d /\
    submitted d' = submitted d /\
    frame d' = frame d /\
    stopped d' /\
    forall ev : event, step 2 d' ev = None.
Proof.
  eexists. eexists. split; [reflexivity |]. split; [reflexivity |].
  apply (map_rejection_stops_loop 2 [AnimationFrame]); reflexivity.
Defined.

(** C9 on [sampleRoot]: the first element past the nodes and the fourth
    components of the root's groups. *)
Lemma C9_unwritten_zero_witness :
  holdsNodes sampleRoot 3 /\
  exists t : Textures,
    bvhToTextures LittleEndian {| _roots := [sampleRoot] |} = JS.Ok t /\
    boundsArray t !! 24 = Some f32_zero /\
    contentsArray t !! 6 = Some 0%Z /\
    boundsArray t !! 3 = Some f32_zero /\
    boundsArray t !! 7 = Some f32_zero.
Proof.
  split; [reflexivity |].
  destruct (C9_unwritten_zero LittleEndian sampleRoot 3 eq_refl)
    as (t & Ht & Hbounds & Hcontents & Hpad).
  exists t. split; [exact Ht |].
  assert (Hlen : length (boundsArray t) = 64 /\ length (contentsArray t) = 8).
  { pose proof sampleRoot_encoded as Ht'.
    rewrite Ht in Ht'. injection Ht' as ->. split; reflexivity. }
  destruct Hlen as [Hblen Hclen].
  destruct (Hpad 0 ltac:(lia)) as [H3 H7].
  split; [| split; [| split]].
  - apply Hbounds; [cbn; lia | rewrite Hblen; lia].
  - apply Hcontents; [cbn; lia | rewrite Hclen; lia].
  - exact H3.
  - exact H7.
Defined.

(** C10 for a target of two frames: three calls of [render]. *)
Lemma C10_frame_count_witness :
  exists d : Driver,
    exec 2 initial (nominal 3) = Some d /\ stopped d /\ renderCalls d = 3.
Proof.
  destruct (C10_frame_count 2) as ((d & Hexec & Hstop & _) & _ & Hexact & _).
  exists d. split; [exact Hexec |]. split; [exact Hstop |].
  apply (Hexact (nominal 3)); [exact Hexec | reflexivity | exact Hstop].
Defined.

(** ** The encoder on every buffer the typed arrays accept *)

Lemma mod4_mod2 (k : nat) : k mod 4 = 0 -> k mod 2 = 0.
Proof.
  intros H. pose proof (Nat.div_mod_eq k 4) as Hk. rewrite H in Hk.
  replace k with (2 * (k / 4) * 2) by lia. apply Nat.Div0.mod_mul.
Qed.

Lemma bvhToTextures_accepted (e : endianness) (root : ArrayBuffer) :
  byteLength root mod 4 = 0 ->
  bvhToTextures e {| _roots := [root] |} =
  JS.Ok
    {| boundsArray :=
         (encodeNodes (words16 e root) (words32 e root)
            (float32_of_bits <$> words32 e root)
            (iterations (nodeCountOf root)) (blankArrays root)).1;
       contentsArray :=
         (encodeNodes (words16 e root) (words32 e root)
            (float32_of_bits <$> words32 e root)
            (iterations (nodeCountOf root)) (blankArrays root)).2;
       boundsDimension :=
         2 * JS.Math_ceil (JS.Math_sqrt (nodeCountOf root / 2));
       contentsDimension := JS.Math_ceil (JS.Math_sqrt (nodeCountOf root)) |}.
Proof.
  intros H4. pose proof (mod4_mod2 _ H4) as H2.
  unfold bvhToTextures. cbn [_roots].
  unfold new_Uint16Array, new_Uint32Array, new_Float32Array.
  rewrite H2, H4. cbn [Nat.eqb JS.bind].
  rewrite for_lt_encodeNodes. unfold blankArrays.
  now destruct (encodeNodes _ _ _ _ _).
Qed.

Lemma double_le (q : Q) (k : Z) :
  (q / 2 <= inject_Z k)%Q -> (q <= inject_Z (2 * k))%Q.
Proof.
  destruct q as [a b]. unfold Qle, Qdiv, Qmult, Qinv. simpl. lia.
Qed.

Lemma blank_capacity (root : ArrayBuffer) :
  8 * iterations (nodeCountOf root) <= length (blankArrays root).1 /\
  2 * iterations (nodeCountOf root) <= length (blankArrays root).2.
Proof.
  unfold blankArrays, Float32Array_alloc, Uint32Array_alloc, iterations.
  cbn [fst snd]. rewrite !length_replicate.
  destruct (Math_ceil_sqrt_spec (nodeCountOf root)) as (Hc0 & Hc & _).
  destruct (Math_ceil_sqrt_spec (nodeCountOf root / 2)) as (Hh0 & Hh & _).
  apply Qceiling_least in Hc. apply double_le, Qceiling_least in Hh.
  set (c := Qceiling (nodeCountOf root)) in *.
  set (cd := JS.Math_ceil (JS.Math_sqrt (nodeCountOf root))) in *.
  set (h := JS.Math_ceil (JS.Math_sqrt (nodeCountOf root / 2))) in *.
  split; nia.
Qed.

Lemma loop_reaches (root : ArrayBuffer) (i : nat) :
  i * BYTES_PER_NODE < byteLength root <-> i < iterations (nodeCountOf root).
Proof.
  rewrite iterations_spec. unfold nodeCountOf, Qlt, Qdiv, Qmult, Qinv.
  change (Z.of_nat BYTES_PER_NODE) with 32%Z. unfold BYTES_PER_NODE. simpl.
  lia.
Qed.

Lemma bvhToTextures_rejected (e : endianness) (root : ArrayBuffer) :
  byteLength root mod 4 <> 0 ->
  bvhToTextures e {| _roots := [root] |} = JS.Throw JS.RangeError.
Proof.
  intros H. unfold bvhToTextures. cbn [_roots].
  unfold new_Uint16Array, new_Uint32Array.
  destruct (byteLength root mod 2 =? 0); [| reflexivity].
  cbn [JS.bind]. apply Nat.eqb_neq in H. now rewrite H.
Qed.

(** X1. A single root is encoded exactly when its byte length is a
    multiple of 4; any other byte length is the [RangeError] of a typed-array
    constructor. *)
Theorem bvhToTextures_outcome (e : endianness) (root : ArrayBuffer) :
  (byteLength root mod 4 = 0 ->
   exists t : Textures, bvhToTextures e {| _roots := [root] |} = JS.Ok t) /\
  (byteLength root mod 4 <> 0 ->
   bvhToTextures e {| _roots := [root] |} = JS.Throw JS.RangeError).
Proof.
  split.
  - intros H. rewrite (bvhToTextures_accepted e root H). now eexists.
  - apply bvhToTextures_rejected.
Qed.

(** X2. For every byte length the typed arrays accept, whole nodes or not,
    the arrays returned have [4 * boundsDimension^2] and
    [2 * contentsDimension^2] elements, [boundsDimension] is even, and every
    node the loop visits (every [i] with [i * BYTES_PER_NODE] below the
    byte length) has its eight bounds slots and its two contents slots
    inside the arrays: no write of the loop is dropped. *)
Theorem encoder_writes_in_range (e : endianness) (root : ArrayBuffer) :
  byteLength root mod 4 = 0 ->
  exists t : Textures,
    bvhToTextures e {| _roots := [root] |} = JS.Ok t /\
    Z.of_nat (length (boundsArray t)) =
      (4 * boundsDimension t * boundsDimension t)%Z /\
    Z.of_nat (length (contentsArray t)) =
      (2 * contentsDimension t * contentsDimension t)%Z /\
    (exists half : Z, (0 <= half)%Z /\ boundsDimension t = (2 * half)%Z) /\
    (0 <= contentsDimension t)%Z /\
    forall i : nat,
      i * BYTES_PER_NODE < byteLength root ->
      8 * i + 7 < length (boundsArray t) /\
      2 * i + 1 < length (contentsArray t).
Proof.
  intros H. rewrite (bvhToTextures_accepted e root H).
  eexists. split; [reflexivity |].
  cbn [boundsArray contentsArray boundsDimension contentsDimension].
  destruct (encodeNodes_length (words16 e root) (words32 e root)
              (float32_of_bits <$> words32 e root)
              (iterations (nodeCountOf root)) (blankArrays root)) as [-> ->].
  destruct (blank_capacity root) as [Hb Hc].
  destruct (Math_ceil_sqrt_spec (nodeCountOf root)) as (Hcd & _).
  destruct (Math_ceil_sqrt_spec (nodeCountOf root / 2)) as (Hh & _).
  split; [| split; [| split; [| split]]].
  - unfold blankArrays, Float32Array_alloc. cbn [fst].
    rewrite length_replicate. nia.
  - unfold blankArrays, Uint32Array_alloc. cbn [snd].
    rewrite length_replicate. nia.
  - eexists. split; [exact Hh | reflexivity].
  - exact Hcd.
  - intros i Hi. apply loop_reaches in Hi. lia.
Qed.

(** ** What a traversal reads back from the contents array *)

(** X3. For a leaf the merged word keeps both halves apart: its low 16
    bits are the triangle count of the source node and its high 16 bits are
    the sentinel [0xFFFF]. *)
Theorem leaf_word_decodes (e : endianness) (root : ArrayBuffer) (n : nat) :
  holdsNodes root n ->
  exists t : Textures,
    bvhToTextures e {| _roots := [root] |} = JS.Ok t /\
    forall i : nat, i < n ->
      isLeaf (16 * i) (words16 e root) = true ->
      exists triangleCount first : Z,
        getCount (16 * i) (words16 e root) = Some triangleCount /\
        contentsArray t !! (2 * i) = Some first /\
        Z.land first 0xFFFF = triangleCount /\
        Z.shiftr first 16 = 0xFFFF%Z.
Proof.
  intros H. rewrite (bvhToTextures_whole e root n H).
  eexists. split; [reflexivity |]. cbn [contentsArray].
  intros i Hi Hleaf.
  destruct (whole_contents_pair e root n H i Hi) as [H0 _].
  destruct (u16_field e root n H i 14 Hi) as (c & Hc & Hcr); [lia |].
  unfold contentsPair in H0. replace (8 * i * 2) with (16 * i) in H0 by lia.
  rewrite Hleaf in H0. cbn [fst] in H0. unfold getCount in *.
  rewrite Hc, mergedLeafWord_count in H0 by assumption.
  exists c, (Z.lor 0xFFFF0000 c). split; [exact Hc |]. split; [exact H0 |].
  change 0xFFFF0000%Z with (65535 * 2 ^ 16)%Z.
  rewrite lor_high_low by assumption. split.
  - change 0xFFFF%Z with (Z.ones 16). rewrite Z.land_ones by lia.
    rewrite Z.add_comm, Z.mod_add by lia. now apply Z.mod_small.
  - rewrite Z.shiftr_div_pow2 by lia.
    rewrite Z.div_add_l by lia. rewrite Z.div_small by lia. lia.
Qed.

(** X4. The children of an internal node in node-index space: the left
    child is the next node ([getLeftNode] of the 32-bit index of node [i]
    is the 32-bit index of node [i + 1]), and when the stored right child is
    the 32-bit index of node [j], the word stored at [contentsArray[2i+1]]
    is [j]. *)
Theorem child_node_indices (e : endianness) (root : ArrayBuffer) (n : nat) :
  holdsNodes root n ->
  exists t : Textures,
    bvhToTextures e {| _roots := [root] |} = JS.Ok t /\
    forall i j : nat, i < n ->
      isLeaf (16 * i) (words16 e root) = false ->
      getRightNode (i * BYTES_PER_NODE / 4) (words32 e root) =
        Some (Z.of_nat (j * BYTES_PER_NODE / 4)) ->
      contentsArray t !! (2 * i + 1) = Some (Z.of_nat j) /\
      getLeftNode (i * BYTES_PER_NODE / 4) = (i + 1) * BYTES_PER_NODE / 4.
Proof.
  intros H. rewrite (bvhToTextures_whole e root n H).
  eexists. split; [reflexivity |]. cbn [contentsArray].
  intros i j Hi Hleaf Hright. rewrite !nodeIndex32_eq in *.
  unfold getLeftNode. split; [| lia].
  destruct (whole_contents_pair e root n H i Hi) as [_ H1].
  destruct (u32_field e root n H i 6 Hi) as (w & Hw & Hwr); [lia |].
  unfold contentsPair in H1. replace (8 * i * 2) with (16 * i) in H1 by lia.
  rewrite Hleaf in H1. cbn [snd] in H1. unfold getRightNode in *.
  rewrite Hw in Hright. injection Hright as ->.
  rewrite Hw, rightIndexWord_offset in H1 by assumption.
  rewrite H1. f_equal. change (Z.of_nat BYTES_PER_NODE) with 32%Z.
  symmetry. apply Z.div_unique with 0%Z; lia.
Qed.

(** ** A buffer that ends inside a node *)

Lemma iterations_truncated (root : ArrayBuffer) (n q : nat) :
  byteLength root = BYTES_PER_NODE * n + 4 * q -> 0 < q < 8 ->
  iterations (nodeCountOf root) = S n.
Proof.
  intros Hlen Hq. unfold iterations, nodeCountOf.
  change (Z.of_nat BYTES_PER_NODE) with (Z.pos 32).
  rewrite Qceiling_quotient, Hlen. unfold BYTES_PER_NODE.
  assert (Hdiv : (- Z.of_nat ((6 * 4 + 4 + 4) * n + 4 * q) / 32
                  = - Z.of_nat n - 1)%Z).
  { symmetry. apply Z.div_unique with (32 - 4 * Z.of_nat q)%Z; lia. }
  rewrite Hdiv. lia.
Qed.

(** X5. A buffer of [n] whole nodes followed by [q] 32-bit words of another
    ([0 < q < 8]) is encoded as [n + 1] nodes. The last node is never tagged
    as a leaf: its first contents word is 0, and its second is 0 unless the
    buffer holds its seventh word. Each of its bounds components, min or
    max, whose word lies past the end of the buffer is stored as NaN; each
    one whose word lies inside the buffer (min component [b] when [b < q],
    max component [b] when [3 + b < q]) is copied from the buffer. *)
Theorem truncated_node_encoded (e : endianness) (root : ArrayBuffer)
    (n q : nat) :
  byteLength root = BYTES_PER_NODE * n + 4 * q -> 0 < q < 8 ->
  exists t : Textures,
    bvhToTextures e {| _roots := [root] |} = JS.Ok t /\
    contentsArray t !! (2 * n) = Some 0%Z /\
    (q < 7 -> contentsArray t !! (2 * n + 1) = Some 0%Z) /\
    forall b : nat, b < 3 ->
      (q <= b -> boundsArray t !! (8 * n + b) = Some F32NaN) /\
      (q <= 3 + b -> boundsArray t !! (8 * n + 4 + b) = Some F32NaN) /\
      (b < q ->
       exists x : float32,
         (float32_of_bits <$> words32 e root) !! (8 * n + b) = Some x /\
         boundsArray t !! (8 * n + b) = Some x) /\
      (3 + b < q ->
       exists x : float32,
         (float32_of_bits <$> words32 e root) !! (8 * n + 3 + b) = Some x /\
         boundsArray t !! (8 * n + 4 + b) = Some x).
Proof.
  intros Hlen Hq.
  assert (H4 : byteLength root mod 4 = 0).
  { rewrite Hlen. unfold BYTES_PER_NODE.
    replace ((6 * 4 + 4 + 4) * n + 4 * q) with ((8 * n + q) * 4) by lia.
    apply Nat.Div0.mod_mul. }
  rewrite (bvhToTextures_accepted e root H4), (iterations_truncated root n q)
    by assumption.
  eexists. split; [reflexivity |]. cbn [boundsArray contentsArray].
  destruct (blank_capacity root) as [Hcapb Hcapc].
  rewrite (iterations_truncated root n q) in Hcapb, Hcapc by assumption.
  assert (H16 : length (words16 e root) = 16 * n + 2 * q).
  { apply words16_length. unfold byteLength, BYTES_PER_NODE in Hlen. lia. }
  assert (H32 : length (words32 e root) = 8 * n + q).
  { apply words32_length. unfold byteLength, BYTES_PER_NODE in Hlen. lia. }
  destruct (encodeNodes_contents_pair (words16 e root) (words32 e root)
              (float32_of_bits <$> words32 e root) (S n) (blankArrays root) n)
    as [H0 H1]; [lia | lia |].
  assert (Hleaf : isLeaf (8 * n * 2) (words16 e root) = false).
  { unfold isLeaf. rewrite lookup_ge_None_2 by lia. reflexivity. }
  unfold contentsPair in H0, H1. rewrite Hleaf in H0, H1. cbn [fst snd] in H0, H1.
  split; [| split].
  - rewrite H0. unfold getSplitAxis. rewrite lookup_ge_None_2 by lia.
    reflexivity.
  - intros Hq7. rewrite H1. unfold getRightNode.
    rewrite lookup_ge_None_2 by lia. reflexivity.
  - intros b Hb. split; [| split; [| split]].
    + intros Hqb. rewrite encodeNodes_bounds_min by lia.
      rewrite lookup_ge_None_2 by (rewrite length_fmap; lia). reflexivity.
    + intros Hqb. rewrite encodeNodes_bounds_max by lia.
      rewrite lookup_ge_None_2 by (rewrite length_fmap; lia). reflexivity.
    + intros Hbq.
      destruct (lookup_lt_is_Some_2 (float32_of_bits <$> words32 e root)
                  (8 * n + b)) as [x Hx]; [rewrite length_fmap; lia |].
      exists x. split; [exact Hx |].
      rewrite encodeNodes_bounds_min by lia. now rewrite Hx.
    + intros Hbq.
      destruct (lookup_lt_is_Some_2 (float32_of_bits <$> words32 e root)
                  (8 * n + 3 + b)) as [x Hx]; [rewrite length_fmap; lia |].
      exists x. split; [exact Hx |].
      rewrite encodeNodes_bounds_max by lia. now rewrite Hx.
Qed.

(** ** More on the frame loop *)

Lemma configured_side : dispatchSide imageWidth maxWorkgroupDimension = 256%Z.
Proof.
  apply dispatchSide_square;
    unfold imageWidth, kTextureWidth, maxWorkgroupDimension; lia.
Qed.

(** X7. At most one thing is ever in flight: between two events there is
    at most one queued callback, and none while a [render] call waits for
    its map; the result buffer is pending exactly while a call waits and is
    unmapped otherwise. A [render] call therefore always starts with the
    buffer unmapped, issues [mapAsync] and suspends, and no other call can
    start before the map settles. *)
Theorem single_map_in_flight (T : nat) (events : list event) (d : Driver) :
  exec T initial events = Some d ->
  requested d <= 1 /\
  frame d <= T /\
  (awaitingMap d = true -> requested d = 0) /\
  resultBufferState d = (if awaitingMap d then pending else unmapped) /\
  forall d' : Driver,
    step T d AnimationFrame = Some d' ->
    resultBufferState d = unmapped /\ awaitingMap d = false /\
    resultBufferState d' = pending /\ awaitingMap d' = true /\
    frame d' = frame d /\
    step T d' AnimationFrame = None.
Proof.
  intros Hexec.
  destruct (reachable_inv T events d Hexec) as [Hframe Hcases].
  destruct d as [f st rq aw sub con]. cbn in *.
  destruct Hcases as [(-> & -> & -> & _) | [(-> & -> & -> & _) |
                      (-> & -> & -> & _)]];
    (split; [lia |]); (split; [exact Hframe |]);
    (split; [intros; congruence || reflexivity |]);
    (split; [reflexivity |]); intros d' Hstep; try discriminate Hstep.
  injection Hstep as <-. cbn. now repeat split.
Qed.

Lemma step_fullFrame (T : nat) (d d' : Driver) (ev : event) :
  driverInv T d -> Forall fullFrame (submitted d) ->
  step T d ev = Some d' -> Forall fullFrame (submitted d').
Proof.
  intros [_ Hcases] Hall Hstep. destruct d as [f st rq aw sub con].
  unfold renderCalls in Hcases. cbn in Hcases, Hall.
  destruct ev as [| t0 t1 |]; cbn in Hstep.
  - destruct rq as [| rq]; [discriminate |].
    destruct Hcases as [(_ & _ & -> & _) | [(Hr & _) | (Hr & _)]];
      try discriminate Hr.
    injection Hstep as <-. cbn. apply Forall_cons. split; [| exact Hall].
    unfold fullFrame. cbn. rewrite configured_side. now repeat split.
  - destruct aw; [| discriminate]. injection Hstep as <-.
    unfold renderResume, scheduleNext. cbn [frame].
    destruct (f <? T); exact Hall.
  - destruct aw; [| discriminate]. injection Hstep as <-. exact Hall.
Qed.

Lemma exec_fullFrame (T : nat) (events : list event) (d d' : Driver) :
  driverInv T d -> Forall fullFrame (submitted d) ->
  exec T d events = Some d' -> Forall fullFrame (submitted d').
Proof.
  revert d. induction events as [| ev rest IH]; intros d Hinv Hall Hexec.
  - injection Hexec as <-. exact Hall.
  - cbn in Hexec. destruct (step T d ev) as [d1 |] eqn:Hstep; [| discriminate].
    apply (IH d1); [| | exact Hexec].
    + now apply (step_inv T d d1 ev).
    + now apply (step_fullFrame T d d1 ev).
Qed.

(** X8. The test of the map state before [copyBufferToBuffer] never fails:
    every command buffer ever submitted copies the resolved timestamps to
    the result buffer, and dispatches a 256 by 256 grid and draws six
    vertices. *)
Theorem every_frame_copies_timestamps (T : nat) (events : list event)
    (d : Driver) :
  exec T initial events = Some d -> Forall fullFrame (submitted d).
Proof.
  apply exec_fullFrame; [apply initial_inv | apply Forall_nil_2].
Qed.

Lemma step_console (T : nat) (d d' : Driver) (ev : event) :
  step T d ev = Some d' -> console d' = rev (gpuTimes [ev]) ++ console d.
Proof.
  intros Hstep. destruct d as [f st rq aw sub con].
  destruct ev as [| t0 t1 |]; cbn in Hstep.
  - destruct rq as [| rq]; [discriminate |]. injection Hstep as <-.
    unfold renderStart, scheduleNext.
    cbn [frame resultBufferState requested awaitingMap submitted console].
    destruct (mapState_eqb st unmapped); [reflexivity |].
    now destruct (f <? T).
  - destruct aw; [| discriminate]. injection Hstep as <-.
    unfold renderResume, scheduleNext. cbn [frame].
    now destruct (f <? T).
  - destruct aw; [| discriminate]. now injection Hstep as <-.
Qed.

Lemma exec_console (T : nat) (events : list event) (d d' : Driver) :
  exec T d events = Some d' -> console d' = rev (gpuTimes events) ++ console d.
Proof.
  revert d. induction events as [| ev rest IH]; intros d Hexec.
  - now injection Hexec as <-.
  - cbn in Hexec. destruct (step T d ev) as [d1 |] eqn:Hstep; [| discriminate].
    rewrite (IH d1 Hexec), (step_console T d d1 ev Hstep).
    destruct ev; cbn; try reflexivity.
    now rewrite <- app_assoc.
Qed.

Lemma step_logs_bound (T : nat) (d d' : Driver) (ev : event) :
  length (console d) + (if awaitingMap d then 1 else 0) <= renderCalls d ->
  step T d ev = Some d' ->
  length (console d') + (if awaitingMap d' then 1 else 0) <= renderCalls d'.
Proof.
  intros Hle Hstep. destruct d as [f st rq aw sub con].
  unfold renderCalls in *. cbn in Hle.
  destruct ev as [| t0 t1 |]; cbn in Hstep.
  - destruct rq as [| rq]; [discriminate |]. injection Hstep as <-.
    unfold renderStart, scheduleNext.
    cbn [frame resultBufferState requested awaitingMap submitted console].
    destruct (mapState_eqb st unmapped); [cbn; destruct aw; lia |].
    destruct (f <? T); cbn; destruct aw; lia.
  - destruct aw; [| discriminate]. injection Hstep as <-.
    unfold renderResume, scheduleNext. cbn [frame].
    destruct (f <? T); cbn; lia.
  - destruct aw; [| discriminate]. injection Hstep as <-. cbn. lia.
Qed.

Lemma exec_logs_bound (T : nat) (events : list event) (d d' : Driver) :
  length (console d) + (if awaitingMap d then 1 else 0) <= renderCalls d ->
  exec T d events = Some d' ->
  length (console d') + (if awaitingMap d' then 1 else 0) <= renderCalls d'.
Proof.
  revert d. induction events as [| ev rest IH]; intros d Hle Hexec.
  - now injection Hexec as <-.
  - cbn in Hexec. destruct (step T d ev) as [d1 |] eqn:Hstep; [| discriminate].
    apply (IH d1); [| exact Hexec]. now apply (step_logs_bound T d d1 ev).
Qed.

(** X9. The GPU times logged are exactly the differences [t1 - t0] of the
    fulfilled maps, in the order of their fulfilment (the console holds the
    most recent first); a frame or a rejected map logs nothing, and there
    is at most one log per [render] call. *)
Theorem gpu_times_logged (T : nat) (events : list event) (d : Driver) :
  exec T initial events = Some d ->
  console d = rev (gpuTimes events) /\
  length (console d) <= renderCalls d.
Proof.
  intros Hexec. split.
  - rewrite (exec_console T events initial d Hexec). apply app_nil_r.
  - pose proof (exec_logs_bound T events initial d) as Hle.
    cbn in Hle. specialize (Hle ltac:(lia) Hexec). lia.
Qed.

(** ** The buffers handed to the device *)

Lemma ToUint32_range (v : JS.number) : isWord32 (JS.ToUint32 v).
Proof.
  unfold isWord32. destruct v as [| q]; cbn [JS.ToUint32]; [lia |].
  apply Z.mod_pos_bound. lia.
Qed.

Lemma ToUint32_words (words : list Z) :
  Forall isWord32 words ->
  (fun v => JS.ToUint32 (JS.ToNumber (Some v))) <$> words = words.
Proof.
  induction 1 as [| w rest Hw _ IH]; [reflexivity |].
  cbn [fmap list_fmap]. now rewrite ToUint32_word, IH.
Qed.

Lemma zero_range_accepted (k : nat) :
  byteLength (replicate (BYTES_PER_ELEMENT * k) x00) mod 4 = 0.
Proof.
  unfold byteLength, BYTES_PER_ELEMENT. rewrite length_replicate.
  rewrite Nat.mul_comm. apply Nat.Div0.mod_mul.
Qed.

Lemma createMappedBuffer_elements (k : nat) :
  createMappedBuffer (BYTES_PER_ELEMENT * k) =
  JS.Ok (replicate (BYTES_PER_ELEMENT * k) x00).
Proof.
  unfold createMappedBuffer, BYTES_PER_ELEMENT.
  now rewrite Nat.mul_comm, Nat.Div0.mod_mul.
Qed.

Lemma mapped_view_length (e : endianness) (k : nat) :
  length (words32 e (replicate (BYTES_PER_ELEMENT * k) x00)) = k.
Proof. apply words32_length. now rewrite length_replicate. Qed.

Lemma Uint32Array_setAll_full (target : list Z) (source : list JS.number) :
  length source = length target ->
  Uint32Array_setAll target source = JS.Ok (JS.ToUint32 <$> source).
Proof.
  intros Hlen. unfold Uint32Array_setAll.
  rewrite Hlen, Nat.leb_refl, drop_all. now rewrite app_nil_r.
Qed.

Lemma Float32Array_setAll_full (target source : list float32) :
  length source = length target ->
  Float32Array_setAll target source = JS.Ok source.
Proof.
  intros Hlen. unfold Float32Array_setAll.
  rewrite Hlen, Nat.leb_refl, drop_all. now rewrite app_nil_r.
Qed.

Lemma upload_words (e : endianness) (words : list Z) :
  Forall isWord32 words ->
  (mapped <- createMappedBuffer (BYTES_PER_ELEMENT * length words) ;;
   data <- new_Uint32Array e mapped ;;
   Uint32Array_setAll data ((fun v => JS.ToNumber (Some v)) <$> words)) =
  JS.Ok words.
Proof.
  intros Hwords. rewrite createMappedBuffer_elements. cbn [JS.bind].
  unfold new_Uint32Array. rewrite zero_range_accepted. cbn [Nat.eqb JS.bind].
  rewrite Uint32Array_setAll_full
    by now rewrite length_fmap, mapped_view_length.
  rewrite <- list_fmap_compose. f_equal. now apply ToUint32_words.
Qed.

(** X10. The index buffer holds the mesh indices unchanged, one 32-bit
    word each, whatever the width of the source typed array: widening and
    copying preserve every index and their number, and neither the buffer
    creation nor [set] throws. *)
Theorem uploadIndices_preserves (e : endianness) (meshIndices : list Z) :
  Forall isWord32 meshIndices ->
  uploadIndices e meshIndices = JS.Ok meshIndices.
Proof.
  intros Hwords. unfold uploadIndices, Uint32Array_from.
  rewrite (ToUint32_words meshIndices Hwords). now apply upload_words.
Qed.

Lemma flattenGroups_cons (g : Group.t) (rest : list Group.t) :
  flattenGroups (g :: rest) =
  JS.ToNumber (Some (Group.start g)) ::
  JS.ToNumber (Some (Group.count g)) ::
  JS.ToNumber (Group.materialIndex g) :: flattenGroups rest.
Proof. reflexivity. Qed.

Lemma flattenGroups_length (groups : list Group.t) :
  length (flattenGroups groups) = 3 * length groups.
Proof.
  induction groups as [| g rest IH]; [reflexivity |].
  rewrite flattenGroups_cons. cbn [length]. rewrite IH. lia.
Qed.

Lemma flattenGroups_lookup (groups : list Group.t) (k : nat) (g : Group.t) :
  groups !! k = Some g ->
  flattenGroups groups !! (3 * k) =
    Some (JS.ToNumber (Some (Group.start g))) /\
  flattenGroups groups !! (3 * k + 1) =
    Some (JS.ToNumber (Some (Group.count g))) /\
  flattenGroups groups !! (3 * k + 2) =
    Some (JS.ToNumber (Group.materialIndex g)).
Proof.
  revert k. induction groups as [| g0 rest IH]; intros k Hk;
    [discriminate Hk |].
  destruct k as [| k].
  - injection Hk as ->. now repeat split.
  - cbn [lookup list_lookup] in Hk. destruct (IH k Hk) as (H0 & H1 & H2).
    replace (3 * S k) with (S (S (S (3 * k)))) by lia.
    rewrite flattenGroups_cons. now repeat split.
Qed.

(** X11. The object definitions buffer holds three 32-bit words per
    group, in the order of the groups: words [3k], [3k+1] and [3k+2] are
    the start, the count and the material index of group [k] modulo
    [2 ^ 32], a missing material index being stored as 0. The buffer is
    filled exactly and nothing throws. *)
Theorem objectDefinitions_layout (e : endianness) (groups : list Group.t) :
  exists data : list Z,
    objectDefinitions e groups = JS.Ok data /\
    length data = 3 * length groups /\
    forall (k : nat) (g : Group.t),
      groups !! k = Some g ->
      data !! (3 * k) = Some (Group.start g mod 2 ^ 32)%Z /\
      data !! (3 * k + 1) = Some (Group.count g mod 2 ^ 32)%Z /\
      data !! (3 * k + 2) =
        Some (match Group.materialIndex g with
              | Some m => m mod 2 ^ 32
              | None => 0
              end)%Z.
Proof.
  unfold objectDefinitions, OBJECT_DEFINITION_SIZE_PER_ENTRY.
  rewrite <- Nat.mul_assoc, createMappedBuffer_elements. cbn [JS.bind].
  unfold new_Uint32Array. rewrite zero_range_accepted. cbn [Nat.eqb JS.bind].
  rewrite Uint32Array_setAll_full
    by now rewrite flattenGroups_length, mapped_view_length.
  eexists. split; [reflexivity |]. split.
  - now rewrite length_fmap, flattenGroups_length.
  - intros k g Hk. destruct (flattenGroups_lookup groups k g Hk) as (H0 & H1 & H2).
    rewrite !list_lookup_fmap, H0, H1, H2. cbn [fmap option_fmap option_map].
    unfold JS.ToUint32, JS.ToNumber. rewrite !truncate_Z.
    destruct (Group.materialIndex g) as [m |]; [rewrite truncate_Z |];
      now repeat split.
Qed.

Lemma encodeNode_words u16 u32 f32 (i : nat) (st : list float32 * list Z) :
  Forall isWord32 st.2 -> Forall isWord32 (encodeNode u16 u32 f32 i st).2.
Proof.
  intros H. rewrite encodeNode_contents. unfold contentsPair.
  destruct (isLeaf (8 * i * 2) u16); cbn [fst snd];
    repeat apply Forall_insert; try exact H;
    unfold mergedLeafWord, rightIndexWord; apply ToUint32_range.
Qed.

Lemma encodeNodes_words u16 u32 f32 (m : nat) (st : list float32 * list Z) :
  Forall isWord32 st.2 -> Forall isWord32 (encodeNodes u16 u32 f32 m st).2.
Proof.
  intros H. induction m as [| m IH]; [exact H |].
  rewrite encodeNodes_S. now apply encodeNode_words.
Qed.

Lemma bvhToTextures_Ok_inv (e : endianness) (bvh : MeshBVHInternal)
    (t : Textures) :
  bvhToTextures e bvh = JS.Ok t ->
  exists root : ArrayBuffer,
    bvh = {| _roots := [root] |} /\ byteLength root mod 4 = 0.
Proof.
  destruct bvh as [roots]. intros H.
  destruct roots as [| root [| root' rest]]; try discriminate H.
  exists root. split; [reflexivity |].
  destruct (decide (byteLength root mod 4 = 0)) as [H4 | H4]; [exact H4 |].
  rewrite (bvhToTextures_rejected e root H4) in H. discriminate H.
Qed.

Lemma contentsArray_words (e : endianness) (bvh : MeshBVHInternal)
    (t : Textures) :
  bvhToTextures e bvh = JS.Ok t -> Forall isWord32 (contentsArray t).
Proof.
  intros H. destruct (bvhToTextures_Ok_inv e bvh t H) as (root & -> & H4).
  rewrite (bvhToTextures_accepted e root H4) in H. injection H as <-.
  cbn [contentsArray]. apply encodeNodes_words.
  unfold blankArrays, Uint32Array_alloc. cbn [snd].
  apply Forall_replicate. unfold isWord32. lia.
Qed.

(** X12. The bounds and contents buffers hold exactly the arrays the
    encoder returns, element for element and with no slack, and nothing
    throws after the encoder; when the encoder throws, its error is the
    outcome and no buffer is created. *)
Theorem uploadBVH_composes (e : endianness) (bvh : MeshBVHInternal) :
  match bvhToTextures e bvh with
  | JS.Ok t => uploadBVH e bvh = JS.Ok (boundsArray t, contentsArray t)
  | JS.Throw err => uploadBVH e bvh = JS.Throw err
  end.
Proof.
  destruct (bvhToTextures e bvh) as [t | err] eqn:Hencode;
    unfold uploadBVH; rewrite Hencode; cbn [JS.bind]; [| reflexivity].
  pose proof (contentsArray_words e bvh t Hencode) as Hwords.
  rewrite createMappedBuffer_elements. cbn [JS.bind].
  unfold new_Float32Array. rewrite zero_range_accepted. cbn [Nat.eqb JS.bind].
  rewrite Float32Array_setAll_full
    by now rewrite length_fmap, mapped_view_length.
  cbn [JS.bind].
  pose proof (upload_words e (contentsArray t) Hwords) as Hupload.
  destruct (createMappedBuffer (BYTES_PER_ELEMENT * length (contentsArray t)))
    as [mapped | err]; cbn [JS.bind] in *; [| discriminate Hupload].
  destruct (new_Uint32Array e mapped) as [data | err]; cbn [JS.bind] in *;
    [| discriminate Hupload].
  now rewrite Hupload.
Qed.

(** ** Termination of the frame loop *)

Lemma step_event_count (T : nat) (d d' : Driver) (ev : event) (k : nat) :
  driverInv T d ->
  k + (if awaitingMap d then 1 else 0) = 2 * renderCalls d ->
  step T d ev = Some d' ->
  S k + (if awaitingMap d' then 1 else 0) = 2 * renderCalls d'.
Proof.
  intros [_ Hcases] Hk Hstep. destruct d as [f st rq aw sub con].
  unfold renderCalls in *. cbn in Hcases, Hk.
  destruct ev as [| t0 t1 |]; cbn in Hstep.
  - destruct rq as [| rq]; [discriminate |].
    destruct Hcases as [(_ & -> & -> & _) | [(Hr & _) | (Hr & _)]];
      try discriminate Hr.
    injection Hstep as <-. cbn. lia.
  - destruct aw; [| discriminate]. injection Hstep as <-.
    unfold renderResume, scheduleNext. cbn [frame].
    destruct (f <? T); cbn; lia.
  - destruct aw; [| discriminate]. injection Hstep as <-. cbn. lia.
Qed.

Lemma exec_event_count (T : nat) (events : list event) (d d' : Driver)
    (k : nat) :
  driverInv T d ->
  k + (if awaitingMap d then 1 else 0) = 2 * renderCalls d ->
  exec T d events = Some d' ->
  k + length events + (if awaitingMap d' then 1 else 0) = 2 * renderCalls d'.
Proof.
  revert d k. induction events as [| ev rest IH]; intros d k Hinv Hk Hexec.
  - injection Hexec as <-. cbn [length]. lia.
  - cbn in Hexec. destruct (step T d ev) as [d1 |] eqn:Hstep; [| discriminate].
    cbn [length]. replace (k + S (length rest)) with (S k + length rest) by lia.
    apply (IH d1); [| | exact Hexec].
    + now apply (step_inv T d d1 ev).
    + now apply (step_event_count T d d1 ev).
Qed.

(** X13. Every run of the frame loop is finite: the events alternate
    between a frame and the settlement of its map, so a run of [k] events
    has made [ceil(k / 2)] calls of [render], and no run has more than
    [2 * (T + 1)] events. *)
Theorem frame_loop_terminates (T : nat) (events : list event) (d : Driver) :
  exec T initial events = Some d ->
  length events + (if awaitingMap d then 1 else 0) = 2 * renderCalls d /\
  length events <= 2 * S T.
Proof.
  intros Hexec.
  pose proof (exec_event_count T events initial d 0 (initial_inv T) eq_refl
                Hexec) as Hcount.
  cbn [Nat.add] in Hcount. split; [exact Hcount |].
  destruct (reachable_inv T events d Hexec) as [Hframe Hcases].
  destruct Hcases as [(_ & Ha & _ & Hc) | [(_ & Ha & _ & Hc) |
                      (_ & Ha & _ & Hc)]]; rewrite Ha in Hcount; lia.
Qed.

(** ** The first contents word on a little-endian platform *)

(** X14. On a little-endian platform the first contents word of every
    node, leaf or internal, is the node's last 32-bit word unchanged: the
    merged leaf word [0xFFFF0000 | count] is already in the buffer. For a
    leaf the second contents word is the node's seventh word. *)
Theorem first_word_copied_little_endian (root : ArrayBuffer) (n : nat) :
  holdsNodes root n ->
  exists t : Textures,
    bvhToTextures LittleEndian {| _roots := [root] |} = JS.Ok t /\
    forall i : nat, i < n ->
      exists w6 w7 : Z,
        words32 LittleEndian root !! (8 * i + 6) = Some w6 /\
        words32 LittleEndian root !! (8 * i + 7) = Some w7 /\
        contentsArray t !! (2 * i) = Some w7 /\
        (isLeaf (16 * i) (words16 LittleEndian root) = true ->
         contentsArray t !! (2 * i + 1) = Some w6).
Proof.
  intros H. rewrite (bvhToTextures_whole LittleEndian root n H).
  eexists. split; [reflexivity |]. cbn [contentsArray].
  intros i Hi.
  destruct (whole_contents_pair LittleEndian root n H i Hi) as [H0 H1].
  destruct (u32_field LittleEndian root n H i 6 Hi) as (w6 & Hw6 & Hw6r);
    [lia |].
  destruct (u32_field LittleEndian root n H i 7 Hi) as (w7 & Hw7 & Hw7r);
    [lia |].
  exists w6, w7. split; [exact Hw6 |]. split; [exact Hw7 |].
  unfold contentsPair in H0, H1.
  replace (8 * i * 2) with (16 * i) in H0, H1 by lia.
  destruct (words32_little_endian root (8 * i + 7) w7 Hw7)
    as (lo & hi & Hlo & Hhi & Hsplit).
  replace (2 * (8 * i + 7)) with (16 * i + 14) in Hlo by lia.
  replace (2 * (8 * i + 7) + 1) with (16 * i + 15) in Hhi by lia.
  pose proof (words16_range _ _ _ _ Hlo) as Hlor.
  destruct (isLeaf (16 * i) (words16 LittleEndian root)) eqn:Hleaf;
    cbn [fst snd] in H0, H1.
  - unfold isLeaf, JS.strict_eq in Hleaf. rewrite Hhi in Hleaf.
    apply Z.eqb_eq in Hleaf. subst hi.
    unfold getCount, getAtOffset in *.
    rewrite Hlo, mergedLeafWord_count in H0 by assumption.
    rewrite Hw6, ToUint32_word in H1 by assumption.
    split; [| intros _; exact H1].
    rewrite H0. f_equal. change 0xFFFF0000%Z with (65535 * 2 ^ 16)%Z.
    rewrite lor_high_low by assumption. lia.
  - unfold getSplitAxis in H0. rewrite Hw7, ToUint32_word in H0 by assumption.
    split; [exact H0 | discriminate].
Qed.

(** ** Complete nodes of any accepted buffer *)

Lemma accepted_u16_length (e : endianness) (root : ArrayBuffer) :
  byteLength root mod 4 = 0 ->
  2 * length (words16 e root) = byteLength root.
Proof.
  intros H4. pose proof (mod4_mod2 _ H4) as H2.
  pose proof (Nat.div_mod_eq (byteLength root) 2) as Hlen. rewrite H2 in Hlen.
  rewrite (words16_length e (byteLength root / 2)); unfold byteLength in *; lia.
Qed.

Lemma accepted_u32_length (e : endianness) (root : ArrayBuffer) :
  byteLength root mod 4 = 0 ->
  4 * length (words32 e root) = byteLength root.
Proof.
  intros H4.
  pose proof (Nat.div_mod_eq (byteLength root) 4) as Hlen. rewrite H4 in Hlen.
  rewrite (words32_length e (byteLength root / 4)); unfold byteLength in *; lia.
Qed.

(** X15. In every buffer the typed arrays accept, each complete node (a
    node [i] whose 32 bytes all lie inside the buffer) is encoded as in a
    buffer of whole nodes, whether or not a partial node follows: its
    bounds at [8i .. 8i+2] and [8i+4 .. 8i+6], and its contents pair by
    kind. *)
Theorem complete_nodes_encoded (e : endianness) (root : ArrayBuffer) :
  byteLength root mod 4 = 0 ->
  exists t : Textures,
    bvhToTextures e {| _roots := [root] |} = JS.Ok t /\
    let uint16Array := words16 e root in
    let uint32Array := words32 e root in
    let float32Array := float32_of_bits <$> words32 e root in
    forall i : nat, (i + 1) * BYTES_PER_NODE <= byteLength root ->
      let nodeIndex32 := i * BYTES_PER_NODE / 4 in
      let nodeIndex16 := nodeIndex32 * 2 in
      (forall b : nat, b < 3 ->
         exists lo hi : float32,
           float32Array !! (nodeIndex32 + b) = Some lo /\
           float32Array !! (nodeIndex32 + 3 + b) = Some hi /\
           boundsArray t !! (8 * i + b) = Some lo /\
           boundsArray t !! (8 * i + 4 + b) = Some hi) /\
      (if isLeaf nodeIndex16 uint16Array then
         exists triangleCount triangleOffset : Z,
           getCount nodeIndex16 uint16Array = Some triangleCount /\
           getAtOffset nodeIndex32 uint32Array = Some triangleOffset /\
           contentsArray t !! (2 * i) = Some (Z.lor 0xFFFF0000 triangleCount) /\
           contentsArray t !! (2 * i + 1) = Some triangleOffset
       else
         exists splitAxis rightChild : Z,
           getSplitAxis nodeIndex32 uint32Array = Some splitAxis /\
           getRightNode nodeIndex32 uint32Array = Some rightChild /\
           contentsArray t !! (2 * i) = Some splitAxis /\
           contentsArray t !! (2 * i + 1) =
             Some (4 * rightChild / Z.of_nat BYTES_PER_NODE)%Z).
Proof.
  intros H4. rewrite (bvhToTextures_accepted e root H4).
  eexists. split; [reflexivity |]. cbv zeta. cbn [boundsArray contentsArray].
  intros i Hi. rewrite nodeIndex32_eq.
  pose proof (accepted_u16_length e root H4) as H16.
  pose proof (accepted_u32_length e root H4) as H32.
  destruct (blank_capacity root) as [Hcapb Hcapc].
  assert (Hloop : i < iterations (nodeCountOf root)).
  { apply loop_reaches. unfold BYTES_PER_NODE in *. lia. }
  unfold BYTES_PER_NODE in Hi.
  assert (Hf32 : forall k, k < 8 ->
            exists x, (float32_of_bits <$> words32 e root) !! (8 * i + k) = Some x).
  { intros k Hk. apply lookup_lt_is_Some_2. rewrite length_fmap. lia. }
  split.
  - intros b Hb.
    destruct (Hf32 b) as [lo Hlo]; [lia |].
    destruct (Hf32 (3 + b)) as [hi Hhi]; [lia |].
    replace (8 * i + (3 + b)) with (8 * i + 3 + b) in Hhi by lia.
    exists lo, hi.
    rewrite encodeNodes_bounds_min, encodeNodes_bounds_max by lia.
    now rewrite Hlo, Hhi.
  - destruct (encodeNodes_contents_pair (words16 e root) (words32 e root)
                (float32_of_bits <$> words32 e root)
                (iterations (nodeCountOf root)) (blankArrays root) i)
      as [H0 H1]; [exact Hloop | lia |].
    rewrite H0, H1. unfold contentsPair.
    unfold getCount, getAtOffset, getSplitAxis, getRightNode.
    destruct (lookup_lt_is_Some_2 (words16 e root) (8 * i * 2 + 14))
      as [c Hc]; [lia |].
    destruct (lookup_lt_is_Some_2 (words32 e root) (8 * i + 6))
      as [w6 Hw6]; [lia |].
    destruct (lookup_lt_is_Some_2 (words32 e root) (8 * i + 7))
      as [w7 Hw7]; [lia |].
    pose proof (words16_range _ _ _ _ Hc) as Hcr.
    pose proof (words32_range _ _ _ _ Hw6) as Hw6r.
    pose proof (words32_range _ _ _ _ Hw7) as Hw7r.
    rewrite Hc, Hw6, Hw7.
    destruct (isLeaf (8 * i * 2) (words16 e root)); cbn [fst snd].
    + exists c, w6. rewrite mergedLeafWord_count, ToUint32_word by assumption.
      now repeat split.
    + exists w7, w6. rewrite rightIndexWord_offset, ToUint32_word by assumption.
      now repeat split.
Qed.

(** ** Growth of the textures *)

Lemma nodeCountOf_mono (r1 r2 : ArrayBuffer) :
  byteLength r1 <= byteLength r2 ->
  (nodeCountOf r1 <= nodeCountOf r2)%Q /\
  (nodeCountOf r1 / 2 <= nodeCountOf r2 / 2)%Q.
Proof.
  intros H. unfold nodeCountOf, Qle, Qdiv, Qmult, Qinv.
  change (Z.of_nat BYTES_PER_NODE) with 32%Z. simpl. lia.
Qed.

Lemma Math_ceil_sqrt_mono (p q : Q) :
  (p <= q)%Q ->
  (JS.Math_ceil (JS.Math_sqrt p) <= JS.Math_ceil (JS.Math_sqrt q))%Z.
Proof.
  intros H. unfold JS.Math_ceil, JS.Math_sqrt. cbn [JS.radicand].
  apply Z.sqrt_up_le_mono. now apply Qceiling_resp_le.
Qed.

(** X16. A longer buffer never gets smaller textures: both dimensions and
    both array lengths are monotone in the byte length of the root. *)
Theorem dimensions_monotone (e : endianness) (r1 r2 : ArrayBuffer)
    (t1 t2 : Textures) :
  bvhToTextures e {| _roots := [r1] |} = JS.Ok t1 ->
  bvhToTextures e {| _roots := [r2] |} = JS.Ok t2 ->
  byteLength r1 <= byteLength r2 ->
  (contentsDimension t1 <= contentsDimension t2)%Z /\
  (boundsDimension t1 <= boundsDimension t2)%Z /\
  length (contentsArray t1) <= length (contentsArray t2) /\
  length (boundsArray t1) <= length (boundsArray t2).
Proof.
  intros H1 H2 Hlen.
  destruct (bvhToTextures_Ok_inv e _ t1 H1) as (r1' & Hr1 & H41).
  destruct (bvhToTextures_Ok_inv e _ t2 H2) as (r2' & Hr2 & H42).
  injection Hr1 as <-. injection Hr2 as <-.
  rewrite (bvhToTextures_accepted e r1 H41) in H1. injection H1 as <-.
  rewrite (bvhToTextures_accepted e r2 H42) in H2. injection H2 as <-.
  cbn [boundsArray contentsArray boundsDimension contentsDimension].
  destruct (nodeCountOf_mono r1 r2 Hlen) as [Hnc Hhalf].
  pose proof (Math_ceil_sqrt_mono _ _ Hnc) as Hcd.
  pose proof (Math_ceil_sqrt_mono _ _ Hhalf) as Hh.
  destruct (Math_ceil_sqrt_spec (nodeCountOf r1)) as (Hcd0 & _).
  destruct (Math_ceil_sqrt_spec (nodeCountOf r1 / 2)) as (Hh0 & _).
  rewrite !(proj1 (encodeNodes_length _ _ _ _ _)).
  rewrite !(proj2 (encodeNodes_length _ _ _ _ _)).
  unfold blankArrays, Float32Array_alloc, Uint32Array_alloc. cbn [fst snd].
  rewrite !length_replicate.
  split; [exact Hcd |]. split; [lia |]. split; nia.
Qed.

(** ** The grid dispatched for any image and workgroup dimension *)

(** X17. For every image width [W] and workgroup dimension [G > 0] the
    pass count is [ceil(W * W / G)] and the grid side is the integer square
    root of the pass count. The grid never exceeds the pass count
    ([side^2 * G < W * W + G]) and falls short of the image by less than
    one row and column: a grid of side [side + 1] covers it. *)
Theorem dispatch_side_bounds (W G : Z) :
  (0 < G)%Z ->
  let passes := computePassesFor W G in
  let side := dispatchSide W G in
  (G * (passes - 1) < W * W <= G * passes)%Z /\
  (0 <= side)%Z /\
  (side * side <= passes < (side + 1) * (side + 1))%Z /\
  (side * side * G < W * W + G)%Z /\
  (W * W < (side + 1) * (side + 1) * G)%Z.
Proof.
  intros HG passes side.
  assert (Hpasses : (G * (passes - 1) < W * W <= G * passes)%Z).
  { unfold passes, computePassesFor, JS.Math_ceilQ.
    destruct G as [| g | g]; try lia.
    rewrite Qceiling_quotient.
    pose proof (Z.div_mod (- (W * W)) (Z.pos g) ltac:(lia)) as Hdiv.
    pose proof (Z.mod_pos_bound (- (W * W)) (Z.pos g) ltac:(lia)) as Hmod.
    nia. }
  assert (Hpos : (0 <= passes)%Z) by nia.
  assert (Hside : side = Z.sqrt passes).
  { unfold side, dispatchSide, GPUSize32, JS.Math_sqrt. cbn [JS.radicand].
    now rewrite Qfloor_Z. }
  pose proof (Z.sqrt_spec passes Hpos) as Hsqrt.
  pose proof (Z.sqrt_nonneg passes) as Hnonneg.
  rewrite <- Hside in Hsqrt, Hnonneg. unfold Z.succ in Hsqrt.
  split; [exact Hpasses |]. split; [exact Hnonneg |].
  split; [lia |]. split; nia.
Qed.

(** ** The further properties at concrete inputs *)

(** X1 on a buffer of 76 bytes and on one of 2 bytes. *)
Lemma bvhToTextures_outcome_witness :
  (exists t : Textures,
     bvhToTextures LittleEndian {| _roots := [truncatedRoot] |} = JS.Ok t) /\
  bvhToTextures LittleEndian {| _roots := [[x00; x00]] |} =
    JS.Throw JS.RangeError.
Proof.
  split.
  - apply (bvhToTextures_outcome LittleEndian truncatedRoot). reflexivity.
  - apply (bvhToTextures_outcome LittleEndian [x00; x00]). cbn. lia.
Defined.

(** X2 on [truncatedRoot]: the third, partial node has its slots. *)
Lemma encoder_writes_in_range_witness :
  byteLength truncatedRoot mod 4 = 0 /\
  exists t : Textures,
    bvhToTextures LittleEndian {| _roots := [truncatedRoot] |} = JS.Ok t /\
    8 * 2 + 7 < length (boundsArray t) /\
    2 * 2 + 1 < length (contentsArray t).
Proof.
  split; [reflexivity |].
  destruct (encoder_writes_in_range LittleEndian truncatedRoot eq_refl)
    as (t & Ht & _ & _ & _ & _ & Hrange).
  exists t. split; [exact Ht |]. apply Hrange. cbn. lia.
Defined.

(** X3 on [sampleRoot]: the first leaf holds two triangles. *)
Lemma leaf_word_decodes_witness :
  holdsNodes sampleRoot 3 /\
  exists t : Textures,
    bvhToTextures LittleEndian {| _roots := [sampleRoot] |} = JS.Ok t /\
    exists first : Z,
      contentsArray t !! 2 = Some first /\
      Z.land first 0xFFFF = 2%Z /\ Z.shiftr first 16 = 0xFFFF%Z.
Proof.
  split; [reflexivity |].
  destruct (leaf_word_decodes LittleEndian sampleRoot 3 eq_refl)
    as (t & Ht & Hleaves).
  exists t. split; [exact Ht |].
  destruct (Hleaves 1 ltac:(lia) eq_refl)
    as (triangleCount & first & Hcount & Hfirst & Hlow & Hhigh).
  vm_compute in Hcount. injection Hcount as <-.
  exists first. now repeat split.
Defined.

(** X4 on [sampleRoot]: the children of the root are nodes 1 and 2. *)
Lemma child_node_indices_witness :
  holdsNodes sampleRoot 3 /\
  exists t : Textures,
    bvhToTextures LittleEndian {| _roots := [sampleRoot] |} = JS.Ok t /\
    contentsArray t !! 1 = Some 2%Z /\
    getLeftNode (0 * BYTES_PER_NODE / 4) = 1 * BYTES_PER_NODE / 4.
Proof.
  split; [reflexivity |].
  destruct (child_node_indices LittleEndian sampleRoot 3 eq_refl)
    as (t & Ht & Hchildren).
  exists t. split; [exact Ht |].
  exact (Hchildren 0 2 ltac:(lia) eq_refl eq_refl).
Defined.

(** X5 on [partialMaxRoot]: the second node has its three min components
    and its first two max components, copied; its third max component is
    NaN. *)
Lemma truncated_node_encoded_witness :
  byteLength partialMaxRoot = BYTES_PER_NODE * 1 + 4 * 5 /\
  exists t : Textures,
    bvhToTextures LittleEndian {| _roots := [partialMaxRoot] |} = JS.Ok t /\
    contentsArray t !! 2 = Some 0%Z /\
    contentsArray t !! 3 = Some 0%Z /\
    boundsArray t !! 10 = Some (F32 0xC0400000) /\
    boundsArray t !! 13 = Some (F32 0x40000000) /\
    boundsArray t !! 14 = Some F32NaN.
Proof.
  split; [reflexivity |].
  destruct (truncated_node_encoded LittleEndian partialMaxRoot 1 5 eq_refl
              ltac:(lia))
    as (t & Ht & H0 & H1 & Hbounds).
  exists t. split; [exact Ht |]. split; [exact H0 |].
  split; [exact (H1 ltac:(lia)) |].
  destruct (Hbounds 2 ltac:(lia)) as (_ & Hnan & Hmin & _).
  destruct (Hbounds 1 ltac:(lia)) as (_ & _ & _ & Hmax).
  destruct (Hmin ltac:(lia)) as (x & Hx & Hbx).
  destruct (Hmax ltac:(lia)) as (y & Hy & Hby).
  change (boundsArray t !! 10 = Some x) in Hbx.
  change (boundsArray t !! 13 = Some y) in Hby.
  split; [| split].
  - rewrite Hbx, <- Hx. vm_compute. reflexivity.
  - rewrite Hby, <- Hy. vm_compute. reflexivity.
  - exact (Hnan ltac:(lia)).
Defined.

(** X6 on [wideAxisRoot], whose split-axis word is above [0xFFFF]. *)
Lemma leaf_discrimination_little_endian_witness :
  holdsNodes wideAxisRoot 1 /\
  exists t : Textures,
    bvhToTextures LittleEndian {| _roots := [wideAxisRoot] |} = JS.Ok t /\
    exists first : Z,
      contentsArray t !! 0 = Some first /\
      (Z.land first 0xFFFF0000 =? 0xFFFF0000)%Z = false.
Proof.
  split; [reflexivity |].
  destruct (leaf_discrimination_little_endian wideAxisRoot 1 eq_refl)
    as (t & Ht & Htest).
  exists t. split; [exact Ht |]. exact (Htest 0 ltac:(lia)).
Defined.

(** X7 for a target of two frames, before the first frame. *)
Lemma single_map_in_flight_witness :
  exists d' : Driver,
    step 2 initial AnimationFrame = Some d' /\
    resultBufferState d' = pending /\ awaitingMap d' = true /\
    step 2 d' AnimationFrame = None.
Proof.
  eexists. split; [reflexivity |].
  destruct (single_map_in_flight 2 [] initial eq_refl)
    as (_ & _ & _ & _ & Hstart).
  destruct (Hstart _ eq_refl) as (_ & _ & Hpending & Hawait & _ & Hnone).
  now repeat split.
Defined.

(** X8 for a target of two frames, after the first frame. *)
Lemma every_frame_copies_timestamps_witness :
  exists d : Driver,
    exec 2 initial [AnimationFrame; MapFulfilled 10 25] = Some d /\
    Forall fullFrame (submitted d).
Proof.
  eexists. split; [reflexivity |].
  apply (every_frame_copies_timestamps 2 [AnimationFrame; MapFulfilled 10 25]).
  reflexivity.
Defined.

(** X9 for a target of two frames, the second map being rejected. *)
Lemma gpu_times_logged_witness :
  exists d : Driver,
    exec 2 initial
      [AnimationFrame; MapFulfilled 10 25; AnimationFrame; MapRejected] =
      Some d /\
    console d = [15%Z] /\ length (console d) <= renderCalls d.
Proof.
  eexists. split; [reflexivity |].
  apply (gpu_times_logged 2
           [AnimationFrame; MapFulfilled 10 25; AnimationFrame; MapRejected]).
  reflexivity.
Defined.

(** X10 on four indices of a 16-bit index array. *)
Lemma uploadIndices_preserves_witness :
  Forall isWord32 [0; 1; 2; 65535]%Z /\
  uploadIndices BigEndian [0; 1; 2; 65535]%Z = JS.Ok [0; 1; 2; 65535]%Z.
Proof.
  assert (H : Forall isWord32 [0; 1; 2; 65535]%Z).
  { repeat apply Forall_cons_2; try apply Forall_nil_2; unfold isWord32; lia. }
  split; [exact H |]. now apply uploadIndices_preserves.
Defined.

(** X11 on two groups, the second without a material index. *)
Lemma objectDefinitions_layout_witness :
  exists data : list Z,
    objectDefinitions LittleEndian
      [{| Group.start := 0; Group.count := 300;
          Group.materialIndex := Some 1%Z |};
       {| Group.start := 300; Group.count := 12;
          Group.materialIndex := None |}] = JS.Ok data /\
    data !! 3 = Some 300%Z /\ data !! 4 = Some 12%Z /\ data !! 5 = Some 0%Z.
Proof.
  destruct (objectDefinitions_layout LittleEndian
              [{| Group.start := 0; Group.count := 300;
                  Group.materialIndex := Some 1%Z |};
               {| Group.start := 300; Group.count := 12;
                  Group.materialIndex := None |}])
    as (data & Hdata & _ & Hlayout).
  exists data. split; [exact Hdata |].
  exact (Hlayout 1 _ eq_refl).
Defined.

(** X13 for a target of two frames: six events, three calls. *)
Lemma frame_loop_terminates_witness :
  exists d : Driver,
    exec 2 initial (nominal 3) = Some d /\
    length (nominal 3) + (if awaitingMap d then 1 else 0) = 2 * renderCalls d /\
    length (nominal 3) <= 2 * 3.
Proof.
  destruct (nominal_run 2 2 initial eq_refl eq_refl eq_refl eq_refl)
    as (d & Hexec & _).
  exists d. split; [exact Hexec |].
  exact (frame_loop_terminates 2 (nominal 3) d Hexec).
Defined.

(** X14 on [sampleRoot]: the first leaf. *)
Lemma first_word_copied_little_endian_witness :
  holdsNodes sampleRoot 3 /\
  exists t : Textures,
    bvhToTextures LittleEndian {| _roots := [sampleRoot] |} = JS.Ok t /\
    contentsArray t !! 2 = Some 0xFFFF0002%Z /\
    contentsArray t !! 3 = Some 0%Z.
Proof.
  split; [reflexivity |].
  destruct (first_word_copied_little_endian sampleRoot 3 eq_refl)
    as (t & Ht & Hwords).
  exists t. split; [exact Ht |].
  destruct (Hwords 1 ltac:(lia)) as (w6 & w7 & Hw6 & Hw7 & H0 & H1).
  vm_compute in Hw6, Hw7. injection Hw6 as <-. injection Hw7 as <-.
  split; [exact H0 | exact (H1 eq_refl)].
Defined.

(** X15 on [truncatedRoot]: its second node, a complete leaf. *)
Lemma complete_nodes_encoded_witness :
  byteLength truncatedRoot mod 4 = 0 /\
  exists t : Textures,
    bvhToTextures LittleEndian {| _roots := [truncatedRoot] |} = JS.Ok t /\
    contentsArray t !! 2 = Some 0xFFFF0001%Z /\
    contentsArray t !! 3 = Some 0%Z.
Proof.
  split; [reflexivity |].
  destruct (complete_nodes_encoded LittleEndian truncatedRoot eq_refl)
    as (t & Ht & Hnodes).
  exists t. split; [exact Ht |].
  destruct (Hnodes 1 ltac:(cbn; lia)) as [_ Hleaf].
  cbv zeta in Hleaf. change (isLeaf _ _) with true in Hleaf.
  destruct Hleaf as (count & offset & Hcount & Hoffset & H0 & H1).
  vm_compute in Hcount, Hoffset.
  injection Hcount as <-. injection Hoffset as <-.
  split; assumption.
Defined.

(** X16 on [wideAxisRoot] (32 bytes) and [sampleRoot] (96 bytes). *)
Lemma dimensions_monotone_witness :
  exists t1 : Textures,
    bvhToTextures LittleEndian {| _roots := [wideAxisRoot] |} = JS.Ok t1 /\
    byteLength wideAxisRoot <= byteLength sampleRoot /\
    (contentsDimension t1 <= contentsDimension sampleTextures)%Z /\
    (boundsDimension t1 <= boundsDimension sampleTextures)%Z /\
    length (contentsArray t1) <= length (contentsArray sampleTextures) /\
    length (boundsArray t1) <= length (boundsArray sampleTextures).
Proof.
  eexists. split; [vm_compute; reflexivity |].
  split; [cbn; lia |].
  apply (dimensions_monotone LittleEndian wideAxisRoot sampleRoot);
    [vm_compute; reflexivity | exact sampleRoot_encoded | cbn; lia].
Defined.

(** X17 for a 1024 by 1024 image and workgroup dimension 8. *)
Lemma dispatch_side_bounds_witness :
  (dispatchSide 1024 8 * dispatchSide 1024 8 * 8 < 1024 * 1024 + 8)%Z /\
  (1024 * 1024 <
   (dispatchSide 1024 8 + 1) * (dispatchSide 1024 8 + 1) * 8)%Z.
Proof.
  destruct (dispatch_side_bounds 1024 8 ltac:(lia)) as (_ & _ & _ & Hlow & Hup).
  split; [exact Hlow | exact Hup].
Defined.

(** X12 on an empty root list and on [sampleRoot]. *)
Lemma uploadBVH_composes_witness :
  uploadBVH LittleEndian {| _roots := [] |} =
    JS.Throw UnsupportedStructureError /\
  uploadBVH LittleEndian {| _roots := [sampleRoot] |} =
    JS.Ok (boundsArray sampleTextures, contentsArray sampleTextures).
Proof.
  split.
  - exact (uploadBVH_composes LittleEndian {| _roots := [] |}).
  - pose proof (uploadBVH_composes LittleEndian {| _roots := [sampleRoot] |})
      as H.
    rewrite sampleRoot_encoded in H. exact H.
Defined.
